(** * Lead qualification: the scoring pipeline

    A shallow embedding of the scoring core of the lead-qualification API:
    the rule engine ([RuleScoringService]), the NL-assisted classifier
    ([AIScoringService]) and the orchestrator ([LeadScoringService]),
    together with the constants of [config/constants.ts] and the records of
    [types/index.ts].

    Conventions of the embedding:
    - a JavaScript [number] is a [Z]: every number in the pipeline is a small
      integer, so no rounding occurs;
    - a JavaScript [string] is a [string] of ASCII characters; the case
      conversions act on the letters A-Z / a-z and [trim] removes the ASCII
      white space (tab, line feed, vertical tab, form feed, carriage return,
      space);
    - an [async] method is a computation in a state-and-exception monad over
      the world it runs in; [await] is sequencing; the logger is not part of
      the model (it does not influence any result). *)

From Stdlib Require Import ZArith List String Ascii Bool Lia.
From Stdlib Require Import Permutation Sorted QArith DecimalString.
Import ListNotations.

Open Scope string_scope.
Open Scope Z_scope.

(** ** JavaScript string primitives *)

Module JsString.

Definition isUpper (c : ascii) : bool :=
  let n := nat_of_ascii c in (65 <=? n)%nat && (n <=? 90)%nat.

Definition isLower (c : ascii) : bool :=
  let n := nat_of_ascii c in (97 <=? n)%nat && (n <=? 122)%nat.

Definition lowerChar (c : ascii) : ascii :=
  if isUpper c then ascii_of_nat (nat_of_ascii c + 32) else c.

Definition upperChar (c : ascii) : ascii :=
  if isLower c then ascii_of_nat (nat_of_ascii c - 32) else c.

Fixpoint mapChars (f : ascii -> ascii) (s : string) : string :=
  match s with
  | EmptyString => EmptyString
  | String c s' => String (f c) (mapChars f s')
  end.

(** [String.prototype.toLowerCase] and [toUpperCase]. *)
Definition toLowerCase : string -> string := mapChars lowerChar.
Definition toUpperCase : string -> string := mapChars upperChar.

(** [s.startsWith(p)]. *)
Fixpoint startsWith (s p : string) {struct p} : bool :=
  match p, s with
  | EmptyString, _ => true
  | String _ _, EmptyString => false
  | String a p', String b s' => Ascii.eqb a b && startsWith s' p'
  end.

(** [s.includes(k)]: [k] occurs in [s] as a contiguous substring. *)
Fixpoint includes (s k : string) : bool :=
  startsWith s k
  || match s with
     | EmptyString => false
     | String _ s' => includes s' k
     end.

Fixpoint drop (n : nat) (s : string) : string :=
  match n, s with
  | O, _ => s
  | S _, EmptyString => EmptyString
  | S n', String _ s' => drop n' s'
  end.

(** [s.replace(pat, rep)] with a string pattern: only the first occurrence
    is replaced. *)
Fixpoint replace (s pat rep : string) : string :=
  if startsWith s pat then rep ++ drop (String.length pat) s
  else match s with
       | EmptyString => EmptyString
       | String c s' => String c (replace s' pat rep)
       end.

Definition isWhiteSpace (c : ascii) : bool :=
  let n := nat_of_ascii c in
  (n =? 32)%nat || ((9 <=? n)%nat && (n <=? 13)%nat).

Fixpoint trimStart (s : string) : string :=
  match s with
  | EmptyString => EmptyString
  | String c s' => if isWhiteSpace c then trimStart s' else s
  end.

Fixpoint trimEnd (s : string) : string :=
  match s with
  | EmptyString => EmptyString
  | String c s' =>
      match trimEnd s' with
      | EmptyString => if isWhiteSpace c then EmptyString else String c EmptyString
      | t => String c t
      end
  end.

(** [s.trim()]. *)
Definition trim (s : string) : string := trimEnd (trimStart s).

Definition newline : ascii := ascii_of_nat 10.

(** [s.split('\n')]: never empty, [''.split('\n')] is [['']]. *)
Fixpoint splitLines (s : string) : list string :=
  match s with
  | EmptyString => [EmptyString]
  | String c s' =>
      if Ascii.eqb c newline then EmptyString :: splitLines s'
      else match splitLines s' with
           | [] => [String c EmptyString]
           | l :: ls => String c l :: ls
           end
  end.

(** [xs.join(sep)]. *)
Fixpoint join (sep : string) (xs : list string) : string :=
  match xs with
  | [] => EmptyString
  | [x] => x
  | x :: rest => x ++ sep ++ join sep rest
  end.

(** Truthiness of a string: the empty string is the only falsy one. *)
Definition truthy (s : string) : bool :=
  match s with EmptyString => false | String _ _ => true end.

End JsString.
Import JsString.

(** ** config/constants.ts *)

Module SCORING_WEIGHTS.
Module ROLE.
Definition DECISION_MAKER : Z := 20.
Definition INFLUENCER : Z := 10.
Definition OTHER : Z := 0.
End ROLE.
Module INDUSTRY.
Definition EXACT_MATCH : Z := 20.
Definition ADJACENT : Z := 10.
Definition OTHER : Z := 0.
End INDUSTRY.
Module COMPLETENESS.
Definition ALL_FIELDS : Z := 10.
End COMPLETENESS.
Module AI.
Definition HIGH : Z := 50.
Definition MEDIUM : Z := 30.
Definition LOW : Z := 10.
End AI.
End SCORING_WEIGHTS.

Definition DECISION_MAKER_ROLES : list string :=
  ["CEO"; "CTO"; "CFO"; "COO"; "CMO"; "CPO";
   "VP"; "Director"; "Head of"; "Chief"; "President";
   "Owner"; "Founder"; "Co-founder"; "Managing Director"].

Definition INFLUENCER_ROLES : list string :=
  ["Manager"; "Lead"; "Senior"; "Principal"; "Architect";
   "Consultant"; "Specialist"; "Advisor"; "Strategist"].

Module ICP_INDUSTRIES.
Definition EXACT : list string :=
  ["B2B SaaS"; "Software"; "Technology"; "SaaS"].
Definition ADJACENT : list string :=
  ["IT Services"; "Consulting"; "Digital Marketing"; "E-commerce"; "Fintech"].
End ICP_INDUSTRIES.

Module INTENT_THRESHOLDS.
Definition HIGH : Z := 70.
Definition MEDIUM : Z := 40.
End INTENT_THRESHOLDS.

(** ** types/index.ts *)

Record Offer := mkOffer {
  offer_name : string;
  value_props : list string;
  ideal_use_cases : list string
}.

Record Lead := mkLead {
  name : string;
  role : string;
  company : string;
  industry : string;
  location : string;
  linkedin_bio : string
}.

Inductive Intent := High | Medium | Low.

(** [ScoredLead extends Lead]: the six lead fields and the five scoring
    fields, flat as in the interface. *)
Record ScoredLead := mkScoredLead {
  sl_name : string;
  sl_role : string;
  sl_company : string;
  sl_industry : string;
  sl_location : string;
  sl_linkedin_bio : string;
  intent : Intent;
  score : Z;
  reasoning : string;
  rule_score : Z;
  ai_score : Z
}.

Record ScoringBreakdown := mkBreakdown {
  role_score : Z;
  industry_score : Z;
  completeness_score : Z;
  total_rule_score : Z
}.

(** The object spread [{ ...lead, score, intent, reasoning, rule_score,
    ai_score }]. *)
Definition spread (lead : Lead) (sc : Z) (it : Intent) (why : string)
    (rs ai : Z) : ScoredLead :=
  {| sl_name := name lead;
     sl_role := role lead;
     sl_company := company lead;
     sl_industry := industry lead;
     sl_location := location lead;
     sl_linkedin_bio := linkedin_bio lead;
     intent := it;
     score := sc;
     reasoning := why;
     rule_score := rs;
     ai_score := ai |}.

(** The lead part of a scored lead. *)
Definition leadOf (s : ScoredLead) : Lead :=
  {| name := sl_name s;
     role := sl_role s;
     company := sl_company s;
     industry := sl_industry s;
     location := sl_location s;
     linkedin_bio := sl_linkedin_bio s |}.

(** ** services/ruleScoringService.ts *)

Module RuleScoringService.

Definition scoreRole (role : string) : Z :=
  if negb (truthy role) then SCORING_WEIGHTS.ROLE.OTHER
  else
    let roleUpper := toUpperCase role in
    let isDecisionMaker :=
      existsb (fun dmRole => includes roleUpper (toUpperCase dmRole))
              DECISION_MAKER_ROLES in
    if isDecisionMaker then SCORING_WEIGHTS.ROLE.DECISION_MAKER
    else
      let isInfluencer :=
        existsb (fun infRole => includes roleUpper (toUpperCase infRole))
                INFLUENCER_ROLES in
      if isInfluencer then SCORING_WEIGHTS.ROLE.INFLUENCER
      else SCORING_WEIGHTS.ROLE.OTHER.

Definition scoreIndustry (industry : string) : Z :=
  if negb (truthy industry) then SCORING_WEIGHTS.INDUSTRY.OTHER
  else
    let industryUpper := toUpperCase industry in
    let isExactMatch :=
      existsb (fun icp => includes industryUpper (toUpperCase icp))
              ICP_INDUSTRIES.EXACT in
    if isExactMatch then SCORING_WEIGHTS.INDUSTRY.EXACT_MATCH
    else
      let isAdjacent :=
        existsb (fun adj => includes industryUpper (toUpperCase adj))
                ICP_INDUSTRIES.ADJACENT in
      if isAdjacent then SCORING_WEIGHTS.INDUSTRY.ADJACENT
      else SCORING_WEIGHTS.INDUSTRY.OTHER.

(** [field && field.trim().length > 0] *)
Definition fieldPresent (field : string) : bool :=
  truthy field && (0 <? Z.of_nat (String.length (trim field))).

Definition scoreCompleteness (lead : Lead) : Z :=
  let fields :=
    [name lead; role lead; company lead;
     industry lead; location lead; linkedin_bio lead] in
  let allFieldsPresent := forallb fieldPresent fields in
  if allFieldsPresent then SCORING_WEIGHTS.COMPLETENESS.ALL_FIELDS else 0.

Definition calculateRuleScore (lead : Lead) : Z * ScoringBreakdown :=
  let r := scoreRole (role lead) in
  let i := scoreIndustry (industry lead) in
  let c := scoreCompleteness lead in
  let breakdown :=
    {| role_score := r;
       industry_score := i;
       completeness_score := c;
       total_rule_score := r + i + c |} in
  (total_rule_score breakdown, breakdown).

End RuleScoringService.


(** ** Asynchronous methods: state and exceptions

    A method that may throw and may act on the outside world is a function
    from the world before the call to a result and the world after it. *)

Inductive Result (A : Type) : Type :=
| Ok (a : A)
| Throw (e : string).
Arguments Ok {A} a.
Arguments Throw {A} e.

Definition M (W A : Type) : Type := W -> Result A * W.

Definition ret {W A : Type} (a : A) : M W A := fun w => (Ok a, w).

Definition throw {W A : Type} (e : string) : M W A := fun w => (Throw e, w).

Definition bind {W A B : Type} (m : M W A) (k : A -> M W B) : M W B :=
  fun w =>
    match m w with
    | (Ok a, w') => k a w'
    | (Throw e, w') => (Throw e, w')
    end.

(** [try { m } catch (error) { handler }] *)
Definition tryCatch {W A : Type} (m : M W A) (handler : string -> M W A)
  : M W A :=
  fun w =>
    match m w with
    | (Ok a, w') => (Ok a, w')
    | (Throw e, w') => handler e w'
    end.

Declare Scope js_scope.
Delimit Scope js_scope with js.
Notation "x <- m ;; k" := (bind m (fun x => k))
  (at level 61, m at next level, right associativity) : js_scope.

(** ** The world of the classifier

    What [AIScoringService] reads and calls: the environment variable
    [OPENAI_API_KEY] and the chat-completion endpoint. The endpoint is an
    arbitrary function of the number of calls made so far and of the
    request, so two calls with the same request may differ. *)

Record ChatRequest := mkChatRequest {
  model : string;
  messages : list (string * string);
  temperature : Q;
  max_tokens : Z
}.

(** A call either rejects with an error or resolves to a completion, of
    which the code reads [choices[0]?.message?.content]. *)
Inductive Completion :=
| Rejected (e : string)
| Resolved (content : option string).

Record World := mkWorld {
  OPENAI_API_KEY : option string;
  endpoint : nat -> ChatRequest -> Completion;
  calls : nat
}.

(** [await this.openai.chat.completions.create(request)] *)
Definition chat_completions_create (request : ChatRequest)
  : M World (option string) :=
  fun w =>
    let w' := {| OPENAI_API_KEY := OPENAI_API_KEY w;
                 endpoint := endpoint w;
                 calls := S (calls w) |} in
    match endpoint w (calls w) request with
    | Rejected e => (Throw e, w')
    | Resolved content => (Ok content, w')
    end.

(** ** services/aiScoringService.ts *)

Module AIScoringService.

(** The object [{ score, intent, reasoning }] the classifier returns. *)
Record t := mk {
  score : Z;
  intent : Intent;
  reasoning : string
}.

Definition nl : string := String newline EmptyString.

Definition buildPrompt (lead : Lead) (offer : Offer) : string :=
  join nl
    [ "";
      "Analyze this prospect for the following product/offer:";
      "";
      "PRODUCT/OFFER:";
      "- Name: " ++ offer_name offer;
      "- Value Props: " ++ join ", " (value_props offer);
      "- Ideal Use Cases: " ++ join ", " (ideal_use_cases offer);
      "";
      "PROSPECT:";
      "- Name: " ++ name lead;
      "- Role: " ++ role lead;
      "- Company: " ++ company lead;
      "- Industry: " ++ industry lead;
      "- Location: " ++ location lead;
      "- LinkedIn Bio: " ++ linkedin_bio lead;
      "";
      "Based on the prospect's role, industry, and LinkedIn bio, classify their buying intent as High, Medium, or Low.";
      "";
      "Consider:";
      "1. Role alignment with decision-making authority";
      "2. Industry fit with ideal use cases";
      "3. LinkedIn bio indicators of relevant pain points or initiatives";
      "4. Company and location factors";
      "";
      "Respond in this exact format:";
      "INTENT: [High/Medium/Low]";
      "REASONING: [1-2 sentences explaining your classification]";
      "" ].

Definition scoreMap (intent : Intent) : Z :=
  match intent with
  | High => SCORING_WEIGHTS.AI.HIGH
  | Medium => SCORING_WEIGHTS.AI.MEDIUM
  | Low => SCORING_WEIGHTS.AI.LOW
  end.

(** One turn of the loop over the lines of the response; the state is the
    pair of the mutable locals [intent] and [reasoning]. *)
Definition parseLine (st : Intent * string) (line : string)
  : Intent * string :=
  let (intent, reasoning) := st in
  if startsWith line "INTENT:" then
    let intentStr := trim (replace line "INTENT:" "") in
    if includes intentStr "High" then (High, reasoning)
    else if includes intentStr "Low" then (Low, reasoning)
    else (Medium, reasoning)
  else if startsWith line "REASONING:" then
    (intent, trim (replace line "REASONING:" ""))
  else st.

Definition parseAIResponse (response : string) : t :=
  let lines := splitLines response in
  let (intent, reasoning) :=
    fold_left parseLine lines (Medium, "AI analysis completed") in
  {| score := scoreMap intent; intent := intent; reasoning := reasoning |}.

Definition highValueKeywords : list string :=
  ["scale"; "growth"; "automation"; "AI"; "efficiency"; "productivity"].

Definition fallbackScoring (lead : Lead) (offer : Offer) : t :=
  let bioLower := toLowerCase (linkedin_bio lead) in
  let hasHighValueKeywords :=
    existsb (fun keyword => includes bioLower (toLowerCase keyword))
            highValueKeywords in
  let '(score, intent) :=
    if hasHighValueKeywords
       && includes (toLowerCase (industry lead)) "saas"
    then (SCORING_WEIGHTS.AI.HIGH, High)
    else if negb hasHighValueKeywords
            && negb (includes (toLowerCase (industry lead)) "tech")
    then (SCORING_WEIGHTS.AI.LOW, Low)
    else (SCORING_WEIGHTS.AI.MEDIUM, Medium) in
  {| score := score;
     intent := intent;
     reasoning := "Based on profile analysis: " ++ role lead ++ " in "
                  ++ industry lead ++ " industry." |}.

(** [!process.env.OPENAI_API_KEY ||
     process.env.OPENAI_API_KEY === 'your_openai_api_key_here'] *)
Definition keyNotConfigured (w : World) : bool :=
  match OPENAI_API_KEY w with
  | None => true
  | Some key => negb (truthy key) || String.eqb key "your_openai_api_key_here"
  end.

Definition systemContent : string :=
  "You are an expert B2B sales qualification specialist. Analyze prospects and classify their buying intent accurately.".

Definition request (lead : Lead) (offer : Offer) : ChatRequest :=
  {| model := "gpt-3.5-turbo";
     messages := [("system", systemContent);
                  ("user", buildPrompt lead offer)];
     temperature := (3 # 10)%Q;
     max_tokens := 150 |}.

(** The value of the [catch] branch of [scoreWithAI]. *)
Definition degradedDefault : t :=
  {| score := SCORING_WEIGHTS.AI.MEDIUM;
     intent := Medium;
     reasoning := "Unable to determine intent via AI analysis" |}.

Definition scoreWithAI (lead : Lead) (offer : Offer) : M World t :=
  tryCatch
    (fun w =>
       if keyNotConfigured w then ret (fallbackScoring lead offer) w
       else
         (content <- chat_completions_create (request lead offer) ;;
          let response :=
            match content with
            | Some text => text
            | None => ""
            end in
          ret (parseAIResponse response))%js w)
    (fun _ => ret degradedDefault).

End AIScoringService.

(** ** Array.prototype.sort

    [xs.sort(compareFn)] with a consistent comparator: the language
    standard requires the sort to be stable, so elements that compare equal
    keep their order. The model is the stable insertion sort: an element
    moves behind another one only if [compareFn] is positive on them. *)

Section ArraySort.

Context {A : Type}.
Variable compareFn : A -> A -> Z.

Fixpoint insertSorted (x : A) (ys : list A) : list A :=
  match ys with
  | [] => [x]
  | y :: ys' =>
      if 0 <? compareFn x y then y :: insertSorted x ys' else x :: ys
  end.

Definition sort (xs : list A) : list A := fold_right insertSorted [] xs.

End ArraySort.

(** ** services/leadScoringService.ts

    The two private fields [ruleScoringService] and [aiScoringService] are
    the parameters of the section: the orchestrator only calls their
    methods, and either call may throw. *)

Module LeadScoringService.

Definition determineIntent (score : Z) : Intent :=
  if score >=? INTENT_THRESHOLDS.HIGH then High
  else if score >=? INTENT_THRESHOLDS.MEDIUM then Medium
  else Low.

(** The record pushed by the [catch] branch of [scoreLeads]. *)
Definition errorPlaceholder (lead : Lead) : ScoredLead :=
  spread lead 40 Medium "Error during scoring process" 20 20.

(** [(a, b) => b.score - a.score] *)
Definition byScoreDescending (a b : ScoredLead) : Z := score b - score a.

Section Service.

Context {W : Type}.
Variable calculateRuleScore : Lead -> M W (Z * ScoringBreakdown).
Variable scoreWithAI : Lead -> Offer -> M W AIScoringService.t.

Definition scoreLead (lead : Lead) (offer : Offer) : M W ScoredLead :=
  (rule <- calculateRuleScore lead ;;
   let ruleScore := fst rule in
   ai <- scoreWithAI lead offer ;;
   let aiScore := AIScoringService.score ai in
   let reasoning := AIScoringService.reasoning ai in
   let totalScore := ruleScore + aiScore in
   let finalIntent := determineIntent totalScore in
   ret (spread lead totalScore finalIntent reasoning ruleScore aiScore))%js.

(** The [for (const lead of leads)] loop; [scoredLeads] is the array the
    loop pushes to. *)
Fixpoint forEachLead (leads : list Lead) (offer : Offer)
    (scoredLeads : list ScoredLead) : M W (list ScoredLead) :=
  match leads with
  | [] => ret scoredLeads
  | lead :: rest =>
      (pushed <- tryCatch
                   (scoredLead <- scoreLead lead offer ;;
                    ret (scoredLeads ++ [scoredLead])%list)
                   (fun _ => ret (scoredLeads ++ [errorPlaceholder lead])%list) ;;
       forEachLead rest offer pushed)%js
  end.

Definition scoreLeads (leads : list Lead) (offer : Offer)
  : M W (list ScoredLead) :=
  (scoredLeads <- forEachLead leads offer [] ;;
   ret (sort byScoreDescending scoredLeads))%js.

(** The world in which the lead at position [i] of the batch is scored. *)
Definition worldBefore (leads : list Lead) (offer : Offer) (w : W) (i : nat)
  : W :=
  snd (forEachLead (firstn i leads) offer [] w).

End Service.

End LeadScoringService.

(** ** The service as its constructor builds it

    [new LeadScoringService()] wires the rule engine and the classifier of
    this repository. *)

Module Deployed.

Definition calculateRuleScore (lead : Lead)
  : M World (Z * ScoringBreakdown) :=
  ret (RuleScoringService.calculateRuleScore lead).

Definition scoreLead : Lead -> Offer -> M World ScoredLead :=
  LeadScoringService.scoreLead calculateRuleScore AIScoringService.scoreWithAI.

Definition scoreLeads : list Lead -> Offer -> M World (list ScoredLead) :=
  LeadScoringService.scoreLeads calculateRuleScore AIScoringService.scoreWithAI.

End Deployed.

(** ** Vocabulary of the properties *)

(** [text] contains [keyword] when case is ignored: some contiguous part
    of [text] equals [keyword] up to the case of its letters. *)
Definition containsIgnoringCase (text keyword : string) : Prop :=
  exists before part after,
    text = before ++ part ++ after /\ toLowerCase part = toLowerCase keyword.

(** [text] is empty or made of white space only. *)
Fixpoint blank (text : string) : bool :=
  match text with
  | EmptyString => true
  | String c rest => isWhiteSpace c && blank rest
  end.

(** A field is non-empty after trimming. *)
Definition nonEmptyTrimmed (field : string) : Prop := trim field <> "".

Definition allSixPresent (lead : Lead) : Prop :=
  nonEmptyTrimmed (name lead) /\ nonEmptyTrimmed (role lead) /\
  nonEmptyTrimmed (company lead) /\ nonEmptyTrimmed (industry lead) /\
  nonEmptyTrimmed (location lead) /\ nonEmptyTrimmed (linkedin_bio lead).

(** The bio of the lead carries one of the high-value keywords. *)
Definition bioHasKeyword (lead : Lead) : Prop :=
  exists keyword,
    In keyword AIScoringService.highValueKeywords /\
    containsIgnoringCase (linkedin_bio lead) keyword.

(** The fixed thresholds on the total score. *)
Definition thresholdIntent (total : Z) : Intent :=
  if Z_ge_dec total 70 then High
  else if Z_ge_dec total 40 then Medium
  else Low.

(** The record one turn of the batch loop pushes for [lead] when the turn
    starts in world [w]: the scored lead, or the placeholder when scoring
    throws. *)
Definition pushedFor {W : Type}
    (calculateRuleScore : Lead -> M W (Z * ScoringBreakdown))
    (scoreWithAI : Lead -> Offer -> M W AIScoringService.t)
    (lead : Lead) (offer : Offer) (w : W) : ScoredLead :=
  match LeadScoringService.scoreLead calculateRuleScore scoreWithAI lead offer w with
  | (Ok scoredLead, _) => scoredLead
  | (Throw _, _) => LeadScoringService.errorPlaceholder lead
  end.

(** The output is in non-increasing order of [score]. *)
Definition scoreNotBelow (a b : ScoredLead) : Prop := score b <= score a.

(** The records of a batch whose score is [v], in the order of the batch. *)
Definition withScore (v : Z) (xs : list ScoredLead) : list ScoredLead :=
  filter (fun s => score s =? v) xs.

(** [a] occurs before [b] in [xs]. *)
Definition precedes (a b : ScoredLead) (xs : list ScoredLead) : Prop :=
  exists front middle back,
    xs = (front ++ a :: middle ++ b :: back)%list.

(** ** Scenarios *)

Module Scenario.

Definition amy : Lead :=
  {| name := "Amy Chen"; role := "VP of Sales"; company := "Acme";
     industry := "B2B SaaS"; location := "NYC";
     linkedin_bio := "Scaling outbound with automation" |}.

Definition bob : Lead :=
  {| name := "Bob Ray"; role := ""; company := "Initech";
     industry := ""; location := "Austin";
     linkedin_bio := "Enjoys hiking" |}.

Definition cho : Lead :=
  {| name := "Cho Li"; role := "Engineering Manager"; company := "Globex";
     industry := "Fintech"; location := "Berlin";
     linkedin_bio := "Building payment systems" |}.

(** Amy's role, industry and bio under another name, company and place. *)
Definition ann : Lead :=
  {| name := "Ann Diaz"; role := "VP of Sales"; company := "Hooli";
     industry := "B2B SaaS"; location := "Lima";
     linkedin_bio := "Scaling outbound with automation" |}.

Definition otherOffer : Offer :=
  {| offer_name := "Payroll Suite";
     value_props := ["One-click payroll"];
     ideal_use_cases := ["Retail chains"; "Restaurants"] |}.

Definition offer : Offer :=
  {| offer_name := "AI Outreach Automation";
     value_props := ["24/7 outreach"; "6x more meetings"];
     ideal_use_cases := ["B2B SaaS mid-market"] |}.

(** No credential in the environment. *)
Definition noCredential : World :=
  {| OPENAI_API_KEY := None;
     endpoint := fun _ _ => Rejected "unreachable";
     calls := 0 |}.

(** A credential is set and every call to the service fails. *)
Definition serviceDown : World :=
  {| OPENAI_API_KEY := Some "sk-live";
     endpoint := fun _ _ => Rejected "ETIMEDOUT";
     calls := 0 |}.

(** A classifier whose call throws for one lead of the batch. *)
Definition throwingFor (who : string) (lead : Lead) (offer : Offer)
  : M World AIScoringService.t :=
  if String.eqb (name lead) who then throw "classifier call failed"
  else AIScoringService.scoreWithAI lead offer.

End Scenario.

(** ** utils/csvParser.ts

    The class [AppError] is declared in [middleware/errorHandler.ts]; the
    model keeps the two arguments of its constructor. *)

Record AppError := mkAppError {
  message : string;
  statusCode : Z
}.

Module CSVParser.

(** A row object of the CSV reader: [row[column]], undefined when the row
    has no such property. *)
Definition Row : Type := string -> option string.

(** What the read stream emits, one event at a time. *)
Inductive Event :=
| Headers (headers : list string)
| Data (row : Row)
| End
| Error (e : string).

Definition requiredColumns : list string :=
  ["name"; "role"; "company"; "industry"; "location"; "linkedin_bio"].

(** [headers.includes(col)] *)
Definition hasColumn (headers : list string) (col : string) : bool :=
  existsb (String.eqb col) headers.

(** [(row[column] || '').trim()] *)
Definition cell (row : Row) (column : string) : string :=
  trim (match row column with
        | Some value => if truthy value then value else ""
        | None => ""
        end).

Definition toLead (row : Row) : Lead :=
  {| name := cell row "name";
     role := cell row "role";
     company := cell row "company";
     industry := cell row "industry";
     location := cell row "location";
     linkedin_bio := cell row "linkedin_bio" |}.

(** The promise of [parseLeadsCSV] and the locals its callbacks share. A
    promise settles once: a later [resolve] or [reject] does nothing. *)
Record State := mkState {
  leads : list Lead;
  headerValidated : bool;
  settled : option (list Lead + AppError)
}.

Definition settle (st : State) (outcome : list Lead + AppError) : State :=
  match settled st with
  | Some _ => st
  | None => {| leads := leads st;
               headerValidated := headerValidated st;
               settled := Some outcome |}
  end.

Definition onEvent (st : State) (ev : Event) : State :=
  match ev with
  | Headers headers =>
      let missingColumns :=
        filter (fun col => negb (hasColumn headers col)) requiredColumns in
      if (0 <? List.length missingColumns)%nat then
        settle st
          (inr {| message := "Missing required columns: "
                             ++ join ", " missingColumns;
                  statusCode := 400 |})
      else {| leads := leads st;
              headerValidated := true;
              settled := settled st |}
  | Data row =>
      if negb (headerValidated st) then st
      else
        let lead := toLead row in
        if truthy (name lead) then
          {| leads := (leads st ++ [lead])%list;
             headerValidated := headerValidated st;
             settled := settled st |}
        else st
  | End => settle st (inl (leads st))
  | Error _ =>
      settle st
        (inr {| message := "Failed to parse CSV file"; statusCode := 400 |})
  end.

(** The promise after the stream has emitted [events]: [None] while it is
    pending. *)
Definition parseLeadsCSV (events : list Event)
  : option (list Lead + AppError) :=
  settled
    (fold_left onEvent events
       {| leads := []; headerValidated := false; settled := None |}).

End CSVParser.

(** ** controllers/offerController.ts and controllers/leadController.ts

    The two controllers hold the session: the current offer, the uploaded
    leads and the scored leads. A handler takes the session and the world
    and gives what it answers, the session and the world it leaves. *)

Record Session := mkSession {
  currentOffer : option Offer;
  uploadedLeads : list Lead;
  scoredLeads : list ScoredLead
}.

(** The fields [new OfferController()] and [new LeadController(..)] start
    with. *)
Definition initialSession : Session :=
  {| currentOffer := None; uploadedLeads := []; scoredLeads := [] |}.

Record Stats := mkStats {
  total : Z;
  high : Z;
  medium : Z;
  low : Z;
  averageScore : Z
}.

(** The [data] of a JSON answer; [success: true] goes with each. *)
Inductive Body :=
| OfferBody (info : string) (data : Offer)
| OfferData (data : Offer)
| UploadBody (info : string) (count : Z) (sample : list Lead)
| ScoreBody (info : string) (stats : Stats) (topLeads : list ScoredLead)
| ResultsBody (data : list ScoredLead).

(** What a handler does: it answers with a status and a body, throws an
    [AppError], throws another error, or never answers. *)
Inductive Outcome :=
| Responded (status : Z) (body : Body)
| Raised (err : AppError)
| Crashed (e : string)
| Pending.

(** [`${n}`] for a length. *)
Definition showNat (n : nat) : string :=
  NilZero.string_of_uint (Nat.to_uint n).

(** [Math.round(sum / count)] for integers far below 2^45, where the
    floating-point quotient rounds like the exact one: the nearest
    integer, a half going up. *)
Definition roundedQuotient (sum count : Z) : Z :=
  (2 * sum + count) / (2 * count).

(** [xs.slice(0, n)] *)
Definition slice0 {A : Type} (n : nat) (xs : list A) : list A := firstn n xs.

(** [xs.filter(l => l.intent === label).length] *)
Definition countIntent (label : Intent) (xs : list ScoredLead) : Z :=
  Z.of_nat
    (List.length
       (filter (fun l =>
                  match intent l, label with
                  | High, High | Medium, Medium | Low, Low => true
                  | _, _ => false
                  end) xs)).

Module OfferController.

(** [offerSchema.parse(req.body)] on a body whose three fields have the
    types of the schema: the messages of the [min(1)] checks that fail, in
    the order of the keys of the schema. *)
Definition issues (body : Offer) : list string :=
  ((if (1 <=? String.length (offer_name body))%nat then []
    else ["Name is required"])
   ++ (if (1 <=? List.length (value_props body))%nat then []
       else ["At least one value proposition is required"])
   ++ (if (1 <=? List.length (ideal_use_cases body))%nat then []
       else ["At least one ideal use case is required"]))%list.

Definition createOffer (body : Offer) (s : Session) : Outcome * Session :=
  match issues body with
  | [] =>
      (Responded 201 (OfferBody "Offer created successfully" body),
       {| currentOffer := Some body;
          uploadedLeads := uploadedLeads s;
          scoredLeads := scoredLeads s |})
  | errors =>
      (Raised {| message := "Validation error: " ++ join ", " errors;
                 statusCode := 400 |}, s)
  end.

Definition getOffer (s : Session) : Outcome * Session :=
  match currentOffer s with
  | None =>
      (Raised {| message := "No offer found. Please create an offer first.";
                 statusCode := 404 |}, s)
  | Some offer => (Responded 200 (OfferData offer), s)
  end.

End OfferController.

Module LeadController.

(** The file of an upload request: what the stream of its path emits, and
    the error of [unlink(filePath)] if deleting it fails. *)
Record UploadedFile := mkUploadedFile {
  events : list CSVParser.Event;
  unlinkError : option string
}.

Definition uploadLeads (file : option UploadedFile) (s : Session)
  : Outcome * Session :=
  match file with
  | None =>
      (Raised {| message := "No file uploaded"; statusCode := 400 |}, s)
  | Some f =>
      match CSVParser.parseLeadsCSV (events f) with
      | None => (Pending, s)
      | Some (inr err) => (Raised err, s)
      | Some (inl leads) =>
          if (List.length leads =? 0)%nat then
            (Raised {| message := "CSV file contains no valid leads";
                       statusCode := 400 |}, s)
          else
            let s' := {| currentOffer := currentOffer s;
                         uploadedLeads := leads;
                         scoredLeads := scoredLeads s |} in
            match unlinkError f with
            | Some e => (Crashed e, s')
            | None =>
                (Responded 200
                   (UploadBody
                      ("Successfully uploaded "
                       ++ showNat (List.length leads) ++ " leads")
                      (Z.of_nat (List.length leads))
                      (slice0 3 leads)), s')
            end
      end
  end.

Definition statsOf (scored : list ScoredLead) : Stats :=
  {| total := Z.of_nat (List.length scored);
     high := countIntent High scored;
     medium := countIntent Medium scored;
     low := countIntent Low scored;
     averageScore :=
       roundedQuotient (fold_left (fun sum l => sum + score l) scored 0)
                       (Z.of_nat (List.length scored)) |}.

Definition scoreLeads (s : Session) (w : World)
  : Outcome * Session * World :=
  if (List.length (uploadedLeads s) =? 0)%nat then
    (Raised {| message := "No leads uploaded. Please upload leads first.";
               statusCode := 400 |}, s, w)
  else
    match currentOffer s with
    | None =>
        (Raised {| message := "No offer found. Please create an offer first.";
                   statusCode := 400 |}, s, w)
    | Some offer =>
        match Deployed.scoreLeads (uploadedLeads s) offer w with
        | (Throw e, w') => (Crashed e, s, w')
        | (Ok scored, w') =>
            (Responded 200
               (ScoreBody "Leads scored successfully"
                  (statsOf scored) (slice0 5 scored)),
             {| currentOffer := currentOffer s;
                uploadedLeads := uploadedLeads s;
                scoredLeads := scored |},
             w')
        end
    end.

Definition getResults (s : Session) : Outcome * Session :=
  if (List.length (scoredLeads s) =? 0)%nat then
    (Raised {| message :=
                 "No scored leads available. Please score leads first.";
               statusCode := 404 |}, s)
  else (Responded 200 (ResultsBody (scoredLeads s)), s).

End LeadController.

(** ** routes/index.ts: the requests of the API on one session *)

Inductive Request :=
| PostOffer (body : Offer)
| GetOffer
| PostLeadsUpload (file : option LeadController.UploadedFile)
| PostScore
| GetResults.

Definition handle (r : Request) (s : Session) (w : World)
  : Outcome * Session * World :=
  match r with
  | PostOffer body => (OfferController.createOffer body s, w)
  | GetOffer => (OfferController.getOffer s, w)
  | PostLeadsUpload file => (LeadController.uploadLeads file s, w)
  | PostScore => LeadController.scoreLeads s w
  | GetResults => (LeadController.getResults s, w)
  end.

(** The session and the world after a sequence of requests. *)
Fixpoint serve (requests : list Request) (s : Session) (w : World)
  : Session * World :=
  match requests with
  | [] => (s, w)
  | r :: rest =>
      match handle r s w with
      | (_, s', w') => serve rest s' w'
      end
  end.

(** ** Vocabulary of the further properties *)

(** The text has no line break. *)
Fixpoint singleLine (text : string) : bool :=
  match text with
  | EmptyString => true
  | String c rest => negb (Ascii.eqb c newline) && singleLine rest
  end.

Definition showIntent (label : Intent) : string :=
  match label with
  | High => "High"
  | Medium => "Medium"
  | Low => "Low"
  end.

(** The answer in the format the prompt asks for. *)
Definition formatted (label : Intent) (text : string) : string :=
  "INTENT: " ++ showIntent label ++ AIScoringService.nl
  ++ "REASONING: " ++ text.

(** Some keyword of the list occurs in the text, case ignored. *)
Definition mentionsOneOf (keywords : list string) (text : string) : Prop :=
  exists keyword, In keyword keywords /\ containsIgnoringCase text keyword.

Definition intentRank (label : Intent) : Z :=
  match label with
  | High => 2
  | Medium => 1
  | Low => 0
  end.

(** A lead as the CSV parser admits it: a name, and no field with white
    space at either end. *)
Definition admitted (lead : Lead) : Prop :=
  name lead <> "" /\
  trim (name lead) = name lead /\ trim (role lead) = role lead /\
  trim (company lead) = company lead /\ trim (industry lead) = industry lead /\
  trim (location lead) = location lead /\
  trim (linkedin_bio lead) = linkedin_bio lead.

Definition validOffer (offer : Offer) : Prop :=
  offer_name offer <> "" /\ value_props offer <> [] /\
  ideal_use_cases offer <> [].

(** What holds of a record the deployed [scoreLead] returns for a lead
    of [leads]. *)
Definition scoredBy (leads : list Lead) (offer : Offer) (s : ScoredLead)
  : Prop :=
  In (leadOf s) leads /\
  (exists w1 w2, Deployed.scoreLead (leadOf s) offer w1 = (Ok s, w2)) /\
  rule_score s = fst (RuleScoringService.calculateRuleScore (leadOf s)) /\
  In (ai_score s) [10; 30; 50] /\
  score s = rule_score s + ai_score s /\
  10 <= score s <= 100 /\
  intent s = thresholdIntent (score s).

(** What holds of the session whatever requests were served. *)
Definition sessionInvariant (s : Session) : Prop :=
  (forall offer, currentOffer s = Some offer -> validOffer offer) /\
  Forall admitted (uploadedLeads s) /\
  StronglySorted scoreNotBelow (scoredLeads s) /\
  Forall (fun l =>
            admitted (leadOf l) /\
            score l = rule_score l + ai_score l /\
            10 <= score l <= 100 /\
            intent l = thresholdIntent (score l))
         (scoredLeads s).

Module Upload.

(** A CSV file with the six columns and three rows, one of them without
    a name. *)
Definition rowOf (n r c i l b : string) : CSVParser.Row :=
  fun column =>
    if String.eqb column "name" then Some n
    else if String.eqb column "role" then Some r
    else if String.eqb column "company" then Some c
    else if String.eqb column "industry" then Some i
    else if String.eqb column "location" then Some l
    else if String.eqb column "linkedin_bio" then Some b
    else None.

Definition rows : list CSVParser.Row :=
  [ rowOf " Amy Chen " "VP of Sales" "Acme" "B2B SaaS" "NYC"
      "Scaling outbound with automation";
    rowOf "   " "Intern" "Nowhere" "Retail" "Oslo" "";
    rowOf "Cho Li" "Engineering Manager" "Globex" "Fintech" "Berlin"
      "Building payment systems" ].

Definition file : LeadController.UploadedFile :=
  {| LeadController.events :=
       (CSVParser.Headers CSVParser.requiredColumns
        :: map CSVParser.Data rows ++ [CSVParser.End])%list;
     LeadController.unlinkError := None |}.

(** The same rows under a header that lacks two columns. *)
Definition badEvents : list CSVParser.Event :=
  (CSVParser.Headers ["name"; "company"; "industry"; "location"]
   :: map CSVParser.Data rows ++ [CSVParser.End])%list.

End Upload.

(** * Properties *)

(** ** Strings *)

Section StringFacts.

Lemma startsWith_app (p rest : string) : startsWith (p ++ rest) p = true.
Proof.
  induction p as [|a p IH]; simpl.
  - reflexivity.
  - now rewrite Ascii.eqb_refl, IH.
Qed.

Lemma startsWith_inv (p s : string) :
  startsWith s p = true -> exists rest, s = p ++ rest.
Proof.
  revert s; induction p as [|a p IH]; intros s H.
  - exists s; reflexivity.
  - destruct s as [|b s]; simpl in H; [discriminate|].
    apply andb_true_iff in H as [Hab Hs].
    apply Ascii.eqb_eq in Hab; subst b.
    destruct (IH _ Hs) as [rest ->].
    exists rest; reflexivity.
Qed.

Lemma includes_unfold (s k : string) :
  includes s k =
  startsWith s k
  || match s with EmptyString => false | String _ s' => includes s' k end.
Proof. destruct s; reflexivity. Qed.

Lemma includes_iff (s k : string) :
  includes s k = true <-> exists before after, s = before ++ k ++ after.
Proof.
  split.
  - induction s as [|c s IH]; rewrite includes_unfold; intros H;
      apply orb_true_iff in H as [H|H].
    + destruct (startsWith_inv _ _ H) as [rest E].
      exists "", rest; exact E.
    + discriminate.
    + destruct (startsWith_inv _ _ H) as [rest E].
      exists "", rest; exact E.
    + destruct (IH H) as (before & after & ->).
      exists (String c before), after; reflexivity.
  - intros (before & after & ->).
    induction before as [|c before IH].
    + simpl (_ ++ _). rewrite includes_unfold, startsWith_app. reflexivity.
    + simpl (_ ++ _). rewrite includes_unfold, IH. apply orb_true_r.
Qed.

Lemma mapChars_app (f : ascii -> ascii) (a b : string) :
  mapChars f (a ++ b) = mapChars f a ++ mapChars f b.
Proof. induction a as [|c a IH]; simpl; [|rewrite IH]; reflexivity. Qed.

Lemma mapChars_split (f : ascii -> ascii) (x y t : string) :
  mapChars f t = x ++ y ->
  exists a b, t = a ++ b /\ mapChars f a = x /\ mapChars f b = y.
Proof.
  revert t; induction x as [|c x IH]; intros t H.
  - exists "", t; auto.
  - destruct t as [|d t]; simpl in H; [discriminate|].
    injection H as Hc Ht.
    destruct (IH _ Ht) as (a & b & -> & Ha & Hb).
    exists (String d a), b; simpl; rewrite Hc, Ha; auto.
Qed.

(** The test the code performs, [lower(text).includes(lower(keyword))], is
    containment up to case. *)
Lemma includes_lower_iff (text keyword : string) :
  includes (toLowerCase text) (toLowerCase keyword) = true
  <-> containsIgnoringCase text keyword.
Proof.
  rewrite includes_iff; split.
  - intros (before & after & E).
    apply mapChars_split in E as (a & rest & -> & Ha & E).
    apply mapChars_split in E as (part & b & -> & Hp & Hb).
    exists a, part, b; split; [reflexivity|exact Hp].
  - intros (before & part & after & -> & E).
    exists (toLowerCase before), (toLowerCase after).
    unfold toLowerCase in *. now rewrite !mapChars_app, E.
Qed.

Lemma trimStart_empty_iff (s : string) :
  trimStart s = "" <-> blank s = true.
Proof.
  induction s as [|c s IH]; simpl.
  - tauto.
  - destruct (isWhiteSpace c); simpl; [exact IH|].
    split; discriminate.
Qed.

Lemma trimEnd_empty_iff (s : string) :
  trimEnd s = "" <-> blank s = true.
Proof.
  induction s as [|c s IH]; simpl.
  - tauto.
  - destruct (trimEnd s) as [|d t] eqn:E.
    + destruct (isWhiteSpace c); simpl.
      * split; intros _; [now apply IH|reflexivity].
      * split; discriminate.
    + split; [discriminate|].
      intros H; apply andb_true_iff in H as [_ H].
      apply IH in H; discriminate.
Qed.

Lemma blank_trimStart (s : string) : blank (trimStart s) = blank s.
Proof.
  induction s as [|c s IH]; simpl; [reflexivity|].
  destruct (isWhiteSpace c) eqn:E; simpl; [exact IH|now rewrite E].
Qed.

(** Trimming leaves nothing exactly when the text is empty or white space
    only. *)
Lemma trim_empty_iff (s : string) : trim s = "" <-> blank s = true.
Proof.
  unfold trim. now rewrite trimEnd_empty_iff, blank_trimStart.
Qed.

Lemma fieldPresent_iff (field : string) :
  RuleScoringService.fieldPresent field = true <-> nonEmptyTrimmed field.
Proof.
  unfold RuleScoringService.fieldPresent, nonEmptyTrimmed.
  rewrite andb_true_iff, Z.ltb_lt. split.
  - intros [_ H] E. rewrite E in H. simpl in H. lia.
  - intros H. split.
    + destruct field; [now elim H|reflexivity].
    + destruct (trim field); [now elim H|simpl; lia].
Qed.

End StringFacts.

(** ** Rule engine *)

Section RuleEngineFacts.

Import RuleScoringService.

Lemma scoreRole_values (r : string) :
  scoreRole r = 0 \/ scoreRole r = 10 \/ scoreRole r = 20.
Proof.
  unfold scoreRole.
  destruct (negb (truthy r)); [now left|].
  destruct (existsb _ DECISION_MAKER_ROLES); [now right; right|].
  destruct (existsb _ INFLUENCER_ROLES); [now right; left|now left].
Qed.

Lemma scoreIndustry_values (i : string) :
  scoreIndustry i = 0 \/ scoreIndustry i = 10 \/ scoreIndustry i = 20.
Proof.
  unfold scoreIndustry.
  destruct (negb (truthy i)); [now left|].
  destruct (existsb _ ICP_INDUSTRIES.EXACT); [now right; right|].
  destruct (existsb _ ICP_INDUSTRIES.ADJACENT); [now right; left|now left].
Qed.

Lemma allFieldsPresent_iff (lead : Lead) :
  forallb fieldPresent
    [name lead; role lead; company lead;
     industry lead; location lead; linkedin_bio lead] = true
  <-> allSixPresent lead.
Proof.
  unfold allSixPresent. simpl forallb.
  rewrite !andb_true_iff, !fieldPresent_iff. tauto.
Qed.

Lemma scoreCompleteness_values (lead : Lead) :
  scoreCompleteness lead = 0 \/ scoreCompleteness lead = 10.
Proof.
  unfold scoreCompleteness.
  destruct (forallb _ _); [now right|now left].
Qed.

Lemma calculateRuleScore_range (lead : Lead) :
  0 <= fst (calculateRuleScore lead) <= 50.
Proof.
  unfold calculateRuleScore; simpl.
  pose proof (scoreRole_values (role lead)).
  pose proof (scoreIndustry_values (industry lead)).
  pose proof (scoreCompleteness_values lead).
  lia.
Qed.

(** C8. The completeness score of the breakdown is 10 exactly when each
    of the six fields of the lead is non-empty after trimming, and 0
    exactly when some field is not: there is no partial credit. *)
Theorem completeness_score_binary (lead : Lead) :
  let c := completeness_score (snd (calculateRuleScore lead)) in
  (c = 10 <-> allSixPresent lead) /\ (c = 0 <-> ~ allSixPresent lead).
Proof.
  cbv zeta. unfold calculateRuleScore; simpl completeness_score.
  unfold scoreCompleteness.
  pose proof (allFieldsPresent_iff lead) as H.
  destruct (forallb _ _).
  - assert (allSixPresent lead) by now apply H.
    unfold SCORING_WEIGHTS.COMPLETENESS.ALL_FIELDS.
    split; split; auto; try lia. intros; contradiction.
  - assert (~ allSixPresent lead).
    { intros A; apply H in A; discriminate. }
    split; split; auto; try lia. intros; contradiction.
Qed.

(** A complete profile earns the 10 points; one with an empty role and an
    empty industry earns none. *)
Lemma completeness_score_binary_witness :
  completeness_score (snd (calculateRuleScore Scenario.amy)) = 10 /\
  completeness_score (snd (calculateRuleScore Scenario.bob)) = 0.
Proof.
  split.
  - apply (proj2 (proj1 (completeness_score_binary Scenario.amy))).
    unfold allSixPresent, nonEmptyTrimmed; vm_compute.
    repeat split; discriminate.
  - apply (proj2 (proj2 (completeness_score_binary Scenario.bob))).
    unfold allSixPresent, nonEmptyTrimmed; vm_compute.
    intros (_ & H & _); now apply H.
Defined.

End RuleEngineFacts.

(** ** Classifier *)

Section ClassifierFacts.

Import AIScoringService.

Lemma hasHighValueKeywords_iff (lead : Lead) :
  existsb (fun keyword =>
             includes (toLowerCase (linkedin_bio lead)) (toLowerCase keyword))
          highValueKeywords = true
  <-> bioHasKeyword lead.
Proof.
  unfold bioHasKeyword. rewrite existsb_exists.
  split; intros (k & Hin & H); exists k; split; auto;
    now apply includes_lower_iff.
Qed.

Lemma industry_marker_iff (lead : Lead) (marker : string) :
  toLowerCase marker = marker ->
  (includes (toLowerCase (industry lead)) marker = true
   <-> containsIgnoringCase (industry lead) marker).
Proof.
  intros E. rewrite <- includes_lower_iff, E. reflexivity.
Qed.

(** C4. The fallback classifier answers High with 50 points when the bio
    carries a high-value keyword (case ignored) and the industry contains
    "saas"; Low with 10 points when the bio carries no such keyword and the
    industry does not contain "tech"; Medium with 30 points in every other
    case. The industry is tested on its lower-cased text, as in the
    scenario of the specification where "B2B SaaS" contains "saas". *)
Theorem fallbackScoring_tiers (lead : Lead) (offer : Offer) :
  let keyword := bioHasKeyword lead in
  let saas := containsIgnoringCase (industry lead) "saas" in
  let tech := containsIgnoringCase (industry lead) "tech" in
  let r := fallbackScoring lead offer in
  (keyword /\ saas -> intent r = High /\ score r = 50) /\
  (~ keyword /\ ~ tech -> intent r = Low /\ score r = 10) /\
  (~ (keyword /\ saas) -> ~ (~ keyword /\ ~ tech) ->
   intent r = Medium /\ score r = 30).
Proof.
  cbv zeta.
  pose proof (hasHighValueKeywords_iff lead) as Hk.
  pose proof (industry_marker_iff lead "saas" eq_refl) as Hs.
  pose proof (industry_marker_iff lead "tech" eq_refl) as Ht.
  unfold fallbackScoring.
  destruct (existsb _ highValueKeywords);
    destruct (includes (toLowerCase (industry lead)) "saas");
    destruct (includes (toLowerCase (industry lead)) "tech");
    simpl; repeat split; try reflexivity; intros;
    solve [ exfalso; intuition congruence ].
Qed.

(** The three tiers on the leads of the scenarios. *)
Lemma fallbackScoring_tiers_witness :
  score (fallbackScoring Scenario.amy Scenario.offer) = 50 /\
  score (fallbackScoring Scenario.bob Scenario.offer) = 10 /\
  score (fallbackScoring Scenario.cho Scenario.offer) = 30.
Proof.
  assert (Hamy : bioHasKeyword Scenario.amy).
  { apply hasHighValueKeywords_iff. vm_compute. reflexivity. }
  assert (Hsaas : containsIgnoringCase (industry Scenario.amy) "saas").
  { apply (industry_marker_iff Scenario.amy "saas" eq_refl).
    vm_compute. reflexivity. }
  assert (Hbob : ~ bioHasKeyword Scenario.bob).
  { intros H; apply hasHighValueKeywords_iff in H; vm_compute in H.
    discriminate. }
  assert (Hbobt : ~ containsIgnoringCase (industry Scenario.bob) "tech").
  { intros H; apply (industry_marker_iff Scenario.bob "tech" eq_refl) in H.
    vm_compute in H. discriminate. }
  assert (Hcho : ~ bioHasKeyword Scenario.cho).
  { intros H; apply hasHighValueKeywords_iff in H; vm_compute in H.
    discriminate. }
  assert (Hchot : containsIgnoringCase (industry Scenario.cho) "tech").
  { apply (industry_marker_iff Scenario.cho "tech" eq_refl).
    vm_compute. reflexivity. }
  split; [|split].
  - apply (proj1 (fallbackScoring_tiers Scenario.amy Scenario.offer)); auto.
  - apply (proj1 (proj2 (fallbackScoring_tiers Scenario.bob Scenario.offer)));
      auto.
  - apply (proj2 (proj2 (fallbackScoring_tiers Scenario.cho Scenario.offer)));
      tauto.
Defined.

(** C9. The fallback classifier does not read the offer, and of the lead
    it reads the bio, the industry and the role only: two leads that agree
    on these three fields get the same score, intent and reasoning under
    any two offers. *)
Theorem fallbackScoring_ignores_offer
    (lead other : Lead) (offer1 offer2 : Offer) :
  fallbackScoring lead offer1 = fallbackScoring lead offer2 /\
  (linkedin_bio lead = linkedin_bio other ->
   industry lead = industry other ->
   role lead = role other ->
   fallbackScoring lead offer1 = fallbackScoring other offer2).
Proof.
  split; [reflexivity|].
  intros Hb Hi Hr. unfold fallbackScoring. now rewrite Hb, Hi, Hr.
Qed.

(** Two leads with the same role, industry and bio, under two offers. *)
Lemma fallbackScoring_ignores_offer_witness :
  fallbackScoring Scenario.amy Scenario.offer
  = fallbackScoring Scenario.ann Scenario.otherOffer.
Proof.
  apply (proj2 (fallbackScoring_ignores_offer
                  Scenario.amy Scenario.ann
                  Scenario.offer Scenario.otherOffer)); reflexivity.
Defined.

End ClassifierFacts.

(** ** Classifier and the external service *)

Section ServiceFacts.

Import AIScoringService.

Lemma scoreMap_values (i : Intent) : In (scoreMap i) [10; 30; 50].
Proof. destruct i; simpl; auto. Qed.

Lemma parseAIResponse_score (response : string) :
  In (score (parseAIResponse response)) [10; 30; 50].
Proof.
  unfold parseAIResponse.
  destruct (fold_left parseLine _ _) as [i r]. apply scoreMap_values.
Qed.

Lemma fallbackScoring_score (lead : Lead) (offer : Offer) :
  In (score (fallbackScoring lead offer)) [10; 30; 50].
Proof.
  unfold fallbackScoring.
  destruct (existsb _ highValueKeywords);
    destruct (includes (toLowerCase (industry lead)) "saas");
    destruct (includes (toLowerCase (industry lead)) "tech");
    simpl; auto.
Qed.

(** The three ways [scoreWithAI] ends; it never throws. *)
Lemma scoreWithAI_cases (lead : Lead) (offer : Offer) (w : World) :
  exists r w',
    scoreWithAI lead offer w = (Ok r, w') /\
    ( (keyNotConfigured w = true /\ r = fallbackScoring lead offer /\ w' = w)
      \/ (keyNotConfigured w = false /\ r = degradedDefault /\
          exists e, endpoint w (calls w) (request lead offer) = Rejected e)
      \/ (keyNotConfigured w = false /\
          exists content,
            endpoint w (calls w) (request lead offer) = Resolved content /\
            r = parseAIResponse
                  (match content with Some text => text | None => "" end)) ).
Proof.
  unfold scoreWithAI, tryCatch.
  destruct (keyNotConfigured w) eqn:K.
  - exists (fallbackScoring lead offer), w. split; [reflexivity|]. left; auto.
  - unfold bind, chat_completions_create.
    destruct (endpoint w (calls w) (request lead offer)) as [e|content] eqn:E.
    + eexists _, _. split; [reflexivity|]. right; left.
      repeat split. exists e; reflexivity.
    + eexists _, _. split; [reflexivity|]. right; right.
      split; [reflexivity|]. exists content; auto.
Qed.

Lemma scoreWithAI_score (lead : Lead) (offer : Offer) (w : World) :
  exists r w',
    scoreWithAI lead offer w = (Ok r, w') /\ In (score r) [10; 30; 50].
Proof.
  destruct (scoreWithAI_cases lead offer w) as (r & w' & E & H).
  exists r, w'. split; [exact E|].
  destruct H as [(_ & -> & _)|[(_ & -> & _)|(_ & c & _ & ->)]].
  - apply fallbackScoring_score.
  - simpl; auto.
  - apply parseAIResponse_score.
Qed.

(** C6. The classifier always returns a value and never throws. When the
    credential is absent it returns the result of the local heuristic and
    dispatches no call; when the credential is present and the dispatched
    call fails it returns the degraded default: 30 points, Medium, and the
    static "unable to determine" reasoning. *)
Theorem scoreWithAI_never_throws (lead : Lead) (offer : Offer) (w : World) :
  (exists r w', scoreWithAI lead offer w = (Ok r, w')) /\
  (OPENAI_API_KEY w = None ->
   scoreWithAI lead offer w = (Ok (fallbackScoring lead offer), w)) /\
  (keyNotConfigured w = true ->
   scoreWithAI lead offer w = (Ok (fallbackScoring lead offer), w)) /\
  (forall e,
     keyNotConfigured w = false ->
     endpoint w (calls w) (request lead offer) = Rejected e ->
     fst (scoreWithAI lead offer w) = Ok degradedDefault) /\
  degradedDefault =
    {| score := 30; intent := Medium;
       reasoning := "Unable to determine intent via AI analysis" |}.
Proof.
  assert (K : keyNotConfigured w = true ->
              scoreWithAI lead offer w = (Ok (fallbackScoring lead offer), w)).
  { intros H. unfold scoreWithAI, tryCatch. now rewrite H. }
  split; [|split; [|split; [|split]]].
  - destruct (scoreWithAI_cases lead offer w) as (r & w' & E & _).
    now exists r, w'.
  - intros H. apply K. unfold keyNotConfigured. now rewrite H.
  - exact K.
  - intros e H E. unfold scoreWithAI, tryCatch, bind, chat_completions_create.
    now rewrite H, E.
  - reflexivity.
Qed.

(** Without a credential Amy is classified by the heuristic; with a
    credential and a failing service she gets the degraded default. *)
Lemma scoreWithAI_never_throws_witness :
  scoreWithAI Scenario.amy Scenario.offer Scenario.noCredential
  = (Ok (fallbackScoring Scenario.amy Scenario.offer), Scenario.noCredential)
  /\ fst (scoreWithAI Scenario.amy Scenario.offer Scenario.serviceDown)
     = Ok degradedDefault.
Proof.
  split.
  - apply (proj1 (proj2 (scoreWithAI_never_throws
                           Scenario.amy Scenario.offer Scenario.noCredential))).
    reflexivity.
  - apply (proj1 (proj2 (proj2 (proj2 (scoreWithAI_never_throws
                           Scenario.amy Scenario.offer Scenario.serviceDown))))
             "ETIMEDOUT").
    + vm_compute. reflexivity.
    + reflexivity.
Defined.

End ServiceFacts.

(** ** Array.prototype.sort *)

Section SortFacts.

Context {A : Type}.
Variable key : A -> Z.

Let descending (a b : A) : Z := key b - key a.

Lemma insertSorted_perm (x : A) (ys : list A) :
  Permutation (insertSorted descending x ys) (x :: ys).
Proof.
  induction ys as [|y ys IH]; simpl.
  - apply Permutation_refl.
  - destruct (0 <? descending x y).
    + eapply perm_trans; [apply perm_skip, IH|apply perm_swap].
    + apply Permutation_refl.
Qed.

Lemma sort_perm (xs : list A) : Permutation (sort descending xs) xs.
Proof.
  induction xs as [|x xs IH]; simpl.
  - apply perm_nil.
  - eapply perm_trans; [apply insertSorted_perm|apply perm_skip, IH].
Qed.

Lemma insertSorted_sorted (x : A) (ys : list A) :
  StronglySorted (fun a b => key b <= key a) ys ->
  StronglySorted (fun a b => key b <= key a) (insertSorted descending x ys).
Proof.
  induction 1 as [|y ys Hs IH Hy]; simpl.
  - repeat constructor.
  - unfold descending at 1. destruct (0 <? key y - key x) eqn:C.
    + apply Z.ltb_lt in C. constructor; [exact IH|].
      eapply Permutation_Forall;
        [apply Permutation_sym, insertSorted_perm|].
      constructor; [lia|exact Hy].
    + apply Z.ltb_ge in C. constructor.
      * constructor; assumption.
      * constructor; [lia|].
        eapply Forall_impl; [|exact Hy]. simpl; intros; lia.
Qed.

Lemma sort_sorted (xs : list A) :
  StronglySorted (fun a b => key b <= key a) (sort descending xs).
Proof.
  induction xs as [|x xs IH]; simpl.
  - constructor.
  - apply insertSorted_sorted, IH.
Qed.

(** An element only moves behind elements of a strictly larger key, so
    the elements of any one key keep their order. *)
Lemma insertSorted_stable (v : Z) (x : A) (ys : list A) :
  filter (fun a => key a =? v) (insertSorted descending x ys)
  = filter (fun a => key a =? v) (x :: ys).
Proof.
  induction ys as [|y ys IH]; [reflexivity|].
  simpl insertSorted. unfold descending at 1.
  destruct (0 <? key y - key x) eqn:C; [|reflexivity].
  apply Z.ltb_lt in C.
  simpl filter in *. rewrite IH.
  destruct (key x =? v) eqn:X; destruct (key y =? v) eqn:Y;
    try reflexivity.
  apply Z.eqb_eq in X, Y. lia.
Qed.

Lemma sort_stable (v : Z) (xs : list A) :
  filter (fun a => key a =? v) (sort descending xs)
  = filter (fun a => key a =? v) xs.
Proof.
  induction xs as [|x xs IH]; [reflexivity|].
  simpl sort. rewrite insertSorted_stable. simpl. now rewrite IH.
Qed.

(** An element of a filtered list sits in the list itself, between what
    the filter kept before it and what it kept after it. *)
Lemma filter_cons_inv (p : A -> bool) (a : A) (xs kept rest : list A) :
  filter p xs = (kept ++ a :: rest)%list ->
  exists front back,
    xs = (front ++ a :: back)%list /\
    filter p front = kept /\ filter p back = rest.
Proof.
  revert kept; induction xs as [|x xs IH]; intros kept H; simpl in H.
  - destruct kept; discriminate.
  - destruct (p x) eqn:Px.
    + destruct kept as [|k kept]; simpl in H; injection H as -> H.
      * exists [], xs. auto.
      * destruct (IH _ H) as (front & back & -> & Hf & Hb).
        exists (k :: front), back. simpl. rewrite Px, Hf. auto.
    + destruct (IH _ H) as (front & back & -> & Hf & Hb).
      exists (x :: front), back. simpl. rewrite Px. auto.
Qed.

(** Two elements of equal key that follow one another in the array
    follow one another, in the same order, in the sorted array. *)
Lemma sort_keeps_order (a b : A) (front middle back : list A) :
  key a = key b ->
  exists front' middle' back',
    sort descending (front ++ a :: middle ++ b :: back)
    = (front' ++ a :: middle' ++ b :: back')%list.
Proof.
  intros Hab.
  pose proof (sort_stable (key a) (front ++ a :: middle ++ b :: back)) as S.
  rewrite filter_app in S. simpl filter in S.
  rewrite filter_app in S. simpl filter in S.
  rewrite <- Hab, Z.eqb_refl in S.
  apply filter_cons_inv in S as (front' & rest & E & _ & S).
  apply filter_cons_inv in S as (middle' & back' & -> & _ & _).
  now exists front', middle', back'.
Qed.

End SortFacts.

(** ** Orchestrator *)

Lemma determineIntent_thresholds (total : Z) :
  LeadScoringService.determineIntent total = thresholdIntent total.
Proof.
  unfold LeadScoringService.determineIntent, thresholdIntent,
    INTENT_THRESHOLDS.HIGH, INTENT_THRESHOLDS.MEDIUM.
  destruct (Z_ge_dec total 70) as [H|H]; destruct (Z_ge_dec total 40) as [K|K];
    destruct (total >=? 70) eqn:E1; destruct (total >=? 40) eqn:E2;
    try reflexivity; lia.
Qed.

Lemma thresholdIntent_iff (total : Z) :
  (thresholdIntent total = High <-> 70 <= total) /\
  (thresholdIntent total = Medium <-> 40 <= total < 70) /\
  (thresholdIntent total = Low <-> total < 40).
Proof.
  unfold thresholdIntent.
  destruct (Z_ge_dec total 70); destruct (Z_ge_dec total 40);
    repeat split; intros; try discriminate; try lia; try reflexivity.
Qed.

Section OrchestratorFacts.

Import LeadScoringService.

Context {W : Type}.
Variable calculateRuleScore : Lead -> M W (Z * ScoringBreakdown).
Variable scoreWithAI : Lead -> Offer -> M W AIScoringService.t.

Local Abbreviation scoreLead :=
  (LeadScoringService.scoreLead calculateRuleScore scoreWithAI).
Local Abbreviation forEachLead :=
  (LeadScoringService.forEachLead calculateRuleScore scoreWithAI).
Local Abbreviation scoreLeads :=
  (LeadScoringService.scoreLeads calculateRuleScore scoreWithAI).
Local Abbreviation worldBefore :=
  (LeadScoringService.worldBefore calculateRuleScore scoreWithAI).
Local Abbreviation pushed1 := (pushedFor calculateRuleScore scoreWithAI).

(** What [scoreLead] returns when it returns. *)
Lemma scoreLead_ok (lead : Lead) (offer : Offer) (w w' : W) (s : ScoredLead) :
  scoreLead lead offer w = (Ok s, w') ->
  exists rule ai w1,
    calculateRuleScore lead w = (Ok rule, w1) /\
    scoreWithAI lead offer w1 = (Ok ai, w') /\
    s = spread lead (fst rule + AIScoringService.score ai)
          (determineIntent (fst rule + AIScoringService.score ai))
          (AIScoringService.reasoning ai)
          (fst rule) (AIScoringService.score ai).
Proof.
  unfold LeadScoringService.scoreLead, bind, ret.
  destruct (calculateRuleScore lead w) as [[rule|e] w1] eqn:R; [|discriminate].
  destruct (scoreWithAI lead offer w1) as [[ai|e] w2] eqn:C; [|discriminate].
  intros H; injection H as <- <-. now exists rule, ai, w1.
Qed.

Lemma scoreLead_frame (lead : Lead) (offer : Offer) (w w' : W) (s : ScoredLead) :
  scoreLead lead offer w = (Ok s, w') -> leadOf s = lead.
Proof.
  intros H. apply scoreLead_ok in H as (rule & ai & w1 & _ & _ & ->).
  now destruct lead.
Qed.

Lemma errorPlaceholder_frame (lead : Lead) :
  leadOf (errorPlaceholder lead) = lead.
Proof. now destruct lead. Qed.

Lemma scoreLead_intent (lead : Lead) (offer : Offer) (w w' : W) (s : ScoredLead) :
  scoreLead lead offer w = (Ok s, w') -> intent s = thresholdIntent (score s).
Proof.
  intros H. apply scoreLead_ok in H as (rule & ai & w1 & _ & _ & ->).
  simpl. apply determineIntent_thresholds.
Qed.

Lemma pushedFor_cases (lead : Lead) (offer : Offer) (w : W) :
  (exists w', scoreLead lead offer w = (Ok (pushed1 lead offer w), w'))
  \/ ((exists e w', scoreLead lead offer w = (Throw e, w'))
      /\ pushed1 lead offer w = errorPlaceholder lead).
Proof.
  unfold pushedFor.
  destruct (LeadScoringService.scoreLead _ _ lead offer w) as [[s|e] w'].
  - left; now exists w'.
  - right; split; [now exists e, w'|reflexivity].
Qed.

Lemma pushedFor_frame (lead : Lead) (offer : Offer) (w : W) :
  leadOf (pushed1 lead offer w) = lead.
Proof.
  destruct (pushedFor_cases lead offer w) as [[w' H]|[_ ->]].
  - eapply scoreLead_frame, H.
  - apply errorPlaceholder_frame.
Qed.

Lemma pushedFor_intent (lead : Lead) (offer : Offer) (w : W) :
  intent (pushed1 lead offer w)
  = thresholdIntent (score (pushed1 lead offer w)).
Proof.
  destruct (pushedFor_cases lead offer w) as [[w' H]|[_ ->]].
  - eapply scoreLead_intent, H.
  - reflexivity.
Qed.

(** One turn of the loop: the record is pushed, whatever [scoreLead] did,
    and the loop goes on in the world [scoreLead] left. *)
Lemma forEachLead_step (lead : Lead) (rest : list Lead) (offer : Offer)
    (acc : list ScoredLead) (w : W) :
  forEachLead (lead :: rest) offer acc w
  = forEachLead rest offer (acc ++ [pushed1 lead offer w])%list
      (snd (scoreLead lead offer w)).
Proof.
  simpl. unfold bind at 1. unfold tryCatch, bind at 1, pushedFor.
  destruct (LeadScoringService.scoreLead _ _ lead offer w) as [[s|e] w'];
    reflexivity.
Qed.

(** The loop never throws; it pushes one record per lead, in the order of
    the leads, each record being the one its turn settles on. *)
Lemma forEachLead_run (offer : Offer) (leads : list Lead) :
  forall (acc : list ScoredLead) (w : W),
  exists pushed w',
    forEachLead leads offer acc w = (Ok (acc ++ pushed)%list, w') /\
    Forall2 (fun lead s => exists wi, s = pushed1 lead offer wi)
            leads pushed /\
    forall i lead,
      nth_error leads i = Some lead ->
      nth_error pushed i
      = Some (pushed1 lead offer
                (snd (forEachLead (firstn i leads) offer acc w))).
Proof.
  induction leads as [|lead rest IH]; intros acc w.
  - exists [], w. rewrite app_nil_r. repeat split; [constructor|].
    intros [|i] l H; discriminate.
  - rewrite forEachLead_step.
    destruct (IH (acc ++ [pushed1 lead offer w])%list
                 (snd (scoreLead lead offer w)))
      as (pushed & w' & E & F & N).
    exists (pushed1 lead offer w :: pushed), w'.
    split; [|split].
    + rewrite E, <- app_assoc. reflexivity.
    + constructor; [now exists w|exact F].
    + intros [|i] l H; simpl in H.
      * injection H as <-. reflexivity.
      * simpl firstn. rewrite forEachLead_step. simpl nth_error.
        now apply N.
Qed.

Lemma pushed_leads (offer : Offer) (leads : list Lead)
    (pushed : list ScoredLead) :
  Forall2 (fun lead s => exists wi, s = pushed1 lead offer wi) leads pushed ->
  map leadOf pushed = leads.
Proof.
  induction 1 as [|lead s leads pushed [wi ->] _ IH]; simpl.
  - reflexivity.
  - now rewrite pushedFor_frame, IH.
Qed.

Lemma pushed_all (P : ScoredLead -> Prop) (offer : Offer) (leads : list Lead)
    (pushed : list ScoredLead) :
  (forall lead w, In lead leads -> P (pushed1 lead offer w)) ->
  Forall2 (fun lead s => exists wi, s = pushed1 lead offer wi) leads pushed ->
  Forall P pushed.
Proof.
  intros HP F. induction F as [|lead s leads pushed [wi ->] _ IH].
  - constructor.
  - constructor.
    + apply HP; now left.
    + apply IH. intros l w Hl. apply HP; now right.
Qed.

(** The batch: never throws, and returns the pushed records sorted. *)
Lemma scoreLeads_run (leads : list Lead) (offer : Offer) (w : W) :
  exists pushed w',
    forEachLead leads offer [] w = (Ok pushed, w') /\
    scoreLeads leads offer w = (Ok (sort byScoreDescending pushed), w') /\
    Forall2 (fun lead s => exists wi, s = pushed1 lead offer wi)
            leads pushed /\
    forall i lead,
      nth_error leads i = Some lead ->
      nth_error pushed i
      = Some (pushed1 lead offer (worldBefore leads offer w i)).
Proof.
  destruct (forEachLead_run offer leads [] w) as (pushed & w' & E & F & N).
  simpl app in E. exists pushed, w'. repeat split; auto.
  unfold LeadScoringService.scoreLeads, bind. now rewrite E.
Qed.

End OrchestratorFacts.

(** ** The batch *)

Section BatchTheorems.

Import LeadScoringService.

Context {W : Type}.
Variable calculateRuleScore : Lead -> M W (Z * ScoringBreakdown).
Variable scoreWithAI : Lead -> Offer -> M W AIScoringService.t.

Local Abbreviation scoreLead :=
  (LeadScoringService.scoreLead calculateRuleScore scoreWithAI).
Local Abbreviation forEachLead :=
  (LeadScoringService.forEachLead calculateRuleScore scoreWithAI).
Local Abbreviation scoreLeads :=
  (LeadScoringService.scoreLeads calculateRuleScore scoreWithAI).
Local Abbreviation worldBefore :=
  (LeadScoringService.worldBefore calculateRuleScore scoreWithAI).
Local Abbreviation pushed1 := (pushedFor calculateRuleScore scoreWithAI).

(** C2. Whatever the two sub-scorers do, [scoreLeads] returns (it never
    throws) one record per input lead: the output has the length of the
    input, its records carry the input leads, each once, and the empty
    batch gives the empty output. A lead whose scoring throws, in the
    world its turn of the loop starts in, is emitted as the placeholder
    with rule_score 20, ai_score 20, score 40, intent Medium and the
    reasoning "Error during scoring process". *)
Theorem scoreLeads_one_record_per_lead
    (leads : list Lead) (offer : Offer) (w : W) :
  exists out w',
    scoreLeads leads offer w = (Ok out, w') /\
    List.length out = List.length leads /\
    Permutation (map leadOf out) leads /\
    (leads = [] -> out = []) /\
    (forall i lead e w1,
       nth_error leads i = Some lead ->
       scoreLead lead offer (worldBefore leads offer w i) = (Throw e, w1) ->
       In (errorPlaceholder lead) out /\
       rule_score (errorPlaceholder lead) = 20 /\
       ai_score (errorPlaceholder lead) = 20 /\
       score (errorPlaceholder lead) = 40 /\
       intent (errorPlaceholder lead) = Medium /\
       reasoning (errorPlaceholder lead) = "Error during scoring process").
Proof.
  destruct (scoreLeads_run calculateRuleScore scoreWithAI leads offer w)
    as (pushed & w' & _ & E & F & N).
  pose proof (sort_perm score pushed) as P.
  change (fun a b => score b - score a) with byScoreDescending in P.
  exists (sort byScoreDescending pushed), w'.
  split; [exact E|]. split; [|split; [|split]].
  - rewrite (Permutation_length P). symmetry. eapply Forall2_length, F.
  - rewrite <- (pushed_leads _ _ offer leads pushed F).
    apply Permutation_map, P.
  - intros ->. inversion F. reflexivity.
  - intros i lead e w1 Hi Ht.
    split; [|repeat split].
    apply (Permutation_in _ (Permutation_sym P)).
    apply (nth_error_In _ i). rewrite (N i lead Hi).
    unfold pushedFor. now rewrite Ht.
Qed.

(** C3. The output of [scoreLeads] is the array the loop filled, whose
    records are those of the input leads in input order, rearranged so
    that scores never increase along it; for every score the records with
    that score appear in the output in the order they have in the input:
    of two records of equal score, the one pushed first comes first. *)
Theorem scoreLeads_sorted_stable
    (leads : list Lead) (offer : Offer) (w : W) :
  exists pushed out w',
    forEachLead leads offer [] w = (Ok pushed, w') /\
    scoreLeads leads offer w = (Ok out, w') /\
    map leadOf pushed = leads /\
    Permutation out pushed /\
    StronglySorted scoreNotBelow out /\
    (forall v, withScore v out = withScore v pushed) /\
    (forall a b,
       score a = score b -> precedes a b pushed -> precedes a b out).
Proof.
  destruct (scoreLeads_run calculateRuleScore scoreWithAI leads offer w)
    as (pushed & w' & L & E & F & _).
  exists pushed, (sort byScoreDescending pushed), w'.
  split; [exact L|]. split; [exact E|]. split; [|split; [|split; [|split]]].
  - eapply pushed_leads, F.
  - apply (sort_perm score).
  - apply (sort_sorted score).
  - intros v. apply (sort_stable score).
  - intros a b Hab (front & middle & back & ->).
    apply (sort_keeps_order score a b front middle back Hab).
Qed.

(** C7. The intent of every record is the threshold function of its
    score: for a record [scoreLead] returns, for the error placeholder,
    and so for every record of the output of [scoreLeads], whatever rule
    score and AI score the sub-scorers gave. *)
Theorem intent_is_function_of_score
    (leads : list Lead) (offer : Offer) (w : W) :
  (forall lead w1 s w2,
     scoreLead lead offer w1 = (Ok s, w2) ->
     intent s = thresholdIntent (score s)) /\
  (forall lead,
     intent (errorPlaceholder lead)
     = thresholdIntent (score (errorPlaceholder lead))) /\
  exists out w',
    scoreLeads leads offer w = (Ok out, w') /\
    Forall (fun s => intent s = thresholdIntent (score s)) out.
Proof.
  split; [|split].
  - intros lead w1 s w2. apply scoreLead_intent.
  - reflexivity.
  - destruct (scoreLeads_run calculateRuleScore scoreWithAI leads offer w)
      as (pushed & w' & _ & E & F & _).
    exists (sort byScoreDescending pushed), w'. split; [exact E|].
    apply (Permutation_Forall (Permutation_sym (sort_perm score pushed))).
    eapply pushed_all; [|exact F].
    intros lead wi _. apply pushedFor_intent.
Qed.

(** A record of the batch has an AI score the classifier returned, or is
    the placeholder of a lead of the batch. *)
Lemma scoreLeads_ai_scores (values : list Z)
    (leads : list Lead) (offer : Offer) (w : W) :
  (forall lead w1 r w2,
     scoreWithAI lead offer w1 = (Ok r, w2) ->
     In (AIScoringService.score r) values) ->
  exists out w',
    scoreLeads leads offer w = (Ok out, w') /\
    Forall (fun s =>
              In (ai_score s) values
              \/ (ai_score s = 20 /\
                  exists lead, In lead leads /\ s = errorPlaceholder lead))
           out.
Proof.
  intros H.
  destruct (scoreLeads_run calculateRuleScore scoreWithAI leads offer w)
    as (pushed & w' & _ & E & F & _).
  exists (sort byScoreDescending pushed), w'. split; [exact E|].
  apply (Permutation_Forall (Permutation_sym (sort_perm score pushed))).
  eapply pushed_all; [|exact F].
  intros lead wi Hin.
  destruct (pushedFor_cases calculateRuleScore scoreWithAI lead offer wi)
    as [[w2 Hs]|[_ ->]].
  - left. apply scoreLead_ok in Hs as (rule & ai & w1 & _ & Hai & ->).
    simpl. eapply H, Hai.
  - right. split; [reflexivity|]. now exists lead.
Qed.

End BatchTheorems.

(** The scenario of the specification: a batch of three leads in which
    the classifier call of the second one throws. The output has three
    records, the placeholder of the second lead among them. *)
Lemma scoreLeads_one_record_per_lead_witness :
  exists out w',
    LeadScoringService.scoreLeads
      Deployed.calculateRuleScore (Scenario.throwingFor "Bob Ray")
      [Scenario.amy; Scenario.bob; Scenario.cho]
      Scenario.offer Scenario.noCredential = (Ok out, w') /\
    List.length out = 3%nat /\
    In (LeadScoringService.errorPlaceholder Scenario.bob) out.
Proof.
  destruct (scoreLeads_one_record_per_lead
              Deployed.calculateRuleScore (Scenario.throwingFor "Bob Ray")
              [Scenario.amy; Scenario.bob; Scenario.cho]
              Scenario.offer Scenario.noCredential)
    as (out & w' & E & L & _ & _ & T).
  exists out, w'. split; [exact E|]. split; [exact L|].
  apply (T 1%nat Scenario.bob "classifier call failed" Scenario.noCredential).
  - reflexivity.
  - vm_compute. reflexivity.
Defined.

(** Ann and Amy tie at 100 points behind Bob in the input: the output
    puts both before Bob and keeps Ann before Amy. *)
Lemma scoreLeads_sorted_stable_witness :
  exists out w',
    Deployed.scoreLeads [Scenario.bob; Scenario.ann; Scenario.amy]
      Scenario.offer Scenario.noCredential = (Ok out, w') /\
    precedes
      (pushedFor Deployed.calculateRuleScore AIScoringService.scoreWithAI
         Scenario.ann Scenario.offer Scenario.noCredential)
      (pushedFor Deployed.calculateRuleScore AIScoringService.scoreWithAI
         Scenario.amy Scenario.offer Scenario.noCredential)
      out.
Proof.
  destruct (scoreLeads_sorted_stable
              Deployed.calculateRuleScore AIScoringService.scoreWithAI
              [Scenario.bob; Scenario.ann; Scenario.amy]
              Scenario.offer Scenario.noCredential)
    as (pushed & out & w' & L & E & _ & _ & _ & _ & Keep).
  exists out, w'. split; [exact E|].
  apply Keep; [reflexivity|].
  vm_compute in L. injection L as <- _.
  exists [pushedFor Deployed.calculateRuleScore AIScoringService.scoreWithAI
            Scenario.bob Scenario.offer Scenario.noCredential], [], [].
  vm_compute. reflexivity.
Defined.

(** Amy, scored without a credential, is High at 100 points. *)
Lemma intent_is_function_of_score_witness :
  exists s w',
    Deployed.scoreLead Scenario.amy Scenario.offer Scenario.noCredential
    = (Ok s, w') /\ intent s = thresholdIntent (score s).
Proof.
  eexists _, _. split.
  - vm_compute. reflexivity.
  - eapply (proj1 (intent_is_function_of_score
                     Deployed.calculateRuleScore AIScoringService.scoreWithAI
                     [] Scenario.offer Scenario.noCredential)
              Scenario.amy Scenario.noCredential).
    vm_compute. reflexivity.
Defined.

(** ** The deployed service *)

Section DeployedFacts.

Import LeadScoringService.

(** With the rule engine and the classifier of the repository,
    [scoreLead] never throws. *)
Lemma deployed_scoreLead (lead : Lead) (offer : Offer) (w : World) :
  exists ai w',
    AIScoringService.scoreWithAI lead offer w = (Ok ai, w') /\
    In (AIScoringService.score ai) [10; 30; 50] /\
    let ruleScore := fst (RuleScoringService.calculateRuleScore lead) in
    let total := ruleScore + AIScoringService.score ai in
    Deployed.scoreLead lead offer w
    = (Ok (spread lead total (determineIntent total)
             (AIScoringService.reasoning ai)
             ruleScore (AIScoringService.score ai)), w').
Proof.
  destruct (scoreWithAI_score lead offer w) as (ai & w' & E & I).
  exists ai, w'. split; [exact E|]. split; [exact I|].
  cbv zeta. unfold Deployed.scoreLead, scoreLead, Deployed.calculateRuleScore.
  unfold bind at 1. unfold ret at 1. unfold bind. now rewrite E.
Qed.

(** C1. For every lead, offer and world, [scoreLead] returns a record
    whose score is the sum of its rule score and its AI score, lies
    between 0 and 100, and whose intent is High exactly when the score is
    at least 70, Medium exactly when it is at least 40 and below 70, and
    Low exactly when it is below 40. *)
Theorem scoreLead_score_and_intent (lead : Lead) (offer : Offer) (w : World) :
  exists s w',
    Deployed.scoreLead lead offer w = (Ok s, w') /\
    score s = rule_score s + ai_score s /\
    0 <= score s <= 100 /\
    (intent s = High <-> 70 <= score s) /\
    (intent s = Medium <-> 40 <= score s < 70) /\
    (intent s = Low <-> score s < 40).
Proof.
  destruct (deployed_scoreLead lead offer w) as (ai & w' & _ & I & E).
  cbv zeta in E. eexists _, w'. split; [exact E|].
  cbn [score rule_score ai_score intent spread].
  split; [reflexivity|]. split.
  - pose proof (calculateRuleScore_range lead) as R.
    destruct I as [I|[I|[I|[]]]]; rewrite <- I; lia.
  - rewrite determineIntent_thresholds. apply thresholdIntent_iff.
Qed.

(** C10. The record [scoreLead] returns carries the six fields of the
    input lead unchanged, and so does the placeholder the batch emits for
    a lead whose scoring throws. *)
Theorem scoreLead_preserves_lead (lead : Lead) (offer : Offer) (w : World) :
  (exists s w',
     Deployed.scoreLead lead offer w = (Ok s, w') /\
     sl_name s = name lead /\ sl_role s = role lead /\
     sl_company s = company lead /\ sl_industry s = industry lead /\
     sl_location s = location lead /\
     sl_linkedin_bio s = linkedin_bio lead) /\
  let p := errorPlaceholder lead in
  sl_name p = name lead /\ sl_role p = role lead /\
  sl_company p = company lead /\ sl_industry p = industry lead /\
  sl_location p = location lead /\ sl_linkedin_bio p = linkedin_bio lead.
Proof.
  split.
  - destruct (deployed_scoreLead lead offer w) as (ai & w' & _ & _ & E).
    cbv zeta in E. eexists _, w'. split; [exact E|].
    simpl. repeat split.
  - simpl. repeat split.
Qed.

End DeployedFacts.

(** ** The scenarios of the specification, evaluated *)

Section ScenarioChecks.

(** Amy Chen: 20 + 20 + 10 by the rules, 50 by the fallback, High at 100. *)
Example scenario_amy :
  snd (RuleScoringService.calculateRuleScore Scenario.amy)
  = {| role_score := 20; industry_score := 20;
       completeness_score := 10; total_rule_score := 50 |}
  /\ fst (Deployed.scoreLead Scenario.amy Scenario.offer Scenario.noCredential)
     = Ok (spread Scenario.amy 100 High
             "Based on profile analysis: VP of Sales in B2B SaaS industry."
             50 50).
Proof. split; vm_compute; reflexivity. Qed.

(** A lead with empty role and industry: nothing by the rules, 10 by the
    fallback, Low at 10. *)
Example scenario_bob :
  snd (RuleScoringService.calculateRuleScore Scenario.bob)
  = {| role_score := 0; industry_score := 0;
       completeness_score := 0; total_rule_score := 0 |}
  /\ fst (Deployed.scoreLead Scenario.bob Scenario.offer Scenario.noCredential)
     = Ok (spread Scenario.bob 10 Low
             "Based on profile analysis:  in  industry." 0 10).
Proof. split; vm_compute; reflexivity. Qed.

(** The batch whose second classifier call throws: three records, sorted,
    the placeholder of the second lead last at 40 points. *)
Example scenario_batch :
  fst (LeadScoringService.scoreLeads
         Deployed.calculateRuleScore (Scenario.throwingFor "Bob Ray")
         [Scenario.amy; Scenario.bob; Scenario.cho]
         Scenario.offer Scenario.noCredential)
  = Ok [ spread Scenario.amy 100 High
           "Based on profile analysis: VP of Sales in B2B SaaS industry."
           50 50;
         spread Scenario.cho 60 Medium
           "Based on profile analysis: Engineering Manager in Fintech industry."
           30 30;
         spread Scenario.bob 40 Medium "Error during scoring process" 20 20 ].
Proof. vm_compute. reflexivity. Qed.

(** The permissive parse of a well-formed and of an empty response. *)
Example scenario_parse :
  AIScoringService.parseAIResponse
    ("INTENT: High" ++ AIScoringService.nl ++ "REASONING: Strong fit. ")
  = {| AIScoringService.score := 50;
       AIScoringService.intent := High;
       AIScoringService.reasoning := "Strong fit." |}
  /\ AIScoringService.parseAIResponse ""
     = {| AIScoringService.score := 30;
          AIScoringService.intent := Medium;
          AIScoringService.reasoning := "AI analysis completed" |}.
Proof. split; vm_compute; reflexivity. Qed.

End ScenarioChecks.

(** * Further properties *)

(** ** Strings, continued *)

Section MoreStringFacts.

Lemma lower_upperChar (c : ascii) : lowerChar (upperChar c) = lowerChar c.
Proof. destruct c as [[] [] [] [] [] [] [] []]; reflexivity. Qed.

Lemma upper_lowerChar (c : ascii) : upperChar (lowerChar c) = upperChar c.
Proof. destruct c as [[] [] [] [] [] [] [] []]; reflexivity. Qed.

Lemma mapChars_compose (f g h : ascii -> ascii) (s : string) :
  (forall c, f (g c) = h c) -> mapChars f (mapChars g s) = mapChars h s.
Proof.
  intros H. induction s as [|c s IH]; simpl; [reflexivity|].
  now rewrite H, IH.
Qed.

(** Two texts have the same upper case exactly when they have the same
    lower case. *)
Lemma upper_eq_iff_lower_eq (a b : string) :
  toUpperCase a = toUpperCase b <-> toLowerCase a = toLowerCase b.
Proof.
  unfold toUpperCase, toLowerCase. split; intros H.
  - rewrite <- (mapChars_compose lowerChar upperChar lowerChar a lower_upperChar).
    rewrite <- (mapChars_compose lowerChar upperChar lowerChar b lower_upperChar).
    now rewrite H.
  - rewrite <- (mapChars_compose upperChar lowerChar upperChar a upper_lowerChar).
    rewrite <- (mapChars_compose upperChar lowerChar upperChar b upper_lowerChar).
    now rewrite H.
Qed.

(** The test of the rule engine, [upper(text).includes(upper(keyword))],
    is containment up to case as well. *)
Lemma includes_upper_iff (text keyword : string) :
  includes (toUpperCase text) (toUpperCase keyword) = true
  <-> containsIgnoringCase text keyword.
Proof.
  rewrite includes_iff; split.
  - intros (before & after & E).
    apply mapChars_split in E as (a & rest & -> & Ha & E).
    apply mapChars_split in E as (part & b & -> & Hp & Hb).
    exists a, part, b; split; [reflexivity|].
    now apply upper_eq_iff_lower_eq.
  - intros (before & part & after & -> & E).
    apply upper_eq_iff_lower_eq in E.
    exists (toUpperCase before), (toUpperCase after).
    unfold toUpperCase in *. now rewrite !mapChars_app, E.
Qed.

Lemma mentions_upper_iff (keywords : list string) (text : string) :
  existsb (fun k => includes (toUpperCase text) (toUpperCase k)) keywords
  = true <-> mentionsOneOf keywords text.
Proof.
  unfold mentionsOneOf. rewrite existsb_exists.
  split; intros (k & Hin & H); exists k; split; auto;
    now apply includes_upper_iff.
Qed.

Lemma trimStart_clean (s : string) :
  match trimStart s with
  | EmptyString => True
  | String c _ => isWhiteSpace c = false
  end.
Proof.
  induction s as [|c s IH]; simpl; [exact I|].
  destruct (isWhiteSpace c) eqn:E; [exact IH|exact E].
Qed.

Lemma trimStart_fixed (s : string) :
  match s with
  | EmptyString => True
  | String c _ => isWhiteSpace c = false
  end -> trimStart s = s.
Proof. destruct s as [|c s]; simpl; [reflexivity|]. now intros ->. Qed.

Lemma trimEnd_head (c : ascii) (s : string) :
  isWhiteSpace c = false -> exists t, trimEnd (String c s) = String c t.
Proof.
  intros H. simpl. destruct (trimEnd s) as [|d t].
  - rewrite H. now exists "".
  - now exists (String d t).
Qed.

Lemma trimEnd_idem (s : string) : trimEnd (trimEnd s) = trimEnd s.
Proof.
  induction s as [|c s IH]; simpl; [reflexivity|].
  destruct (trimEnd s) as [|d t] eqn:E.
  - destruct (isWhiteSpace c) eqn:Wc; simpl; [reflexivity|now rewrite Wc].
  - change (trimEnd (String c (String d t))) with
      (match trimEnd (String d t) with
       | EmptyString =>
           if isWhiteSpace c then EmptyString else String c EmptyString
       | u => String c u
       end).
    now rewrite IH.
Qed.

(** [trim] does nothing to a text it has produced. *)
Lemma trim_idem (s : string) : trim (trim s) = trim s.
Proof.
  unfold trim.
  pose proof (trimStart_clean s) as C.
  destruct (trimStart s) as [|c u] eqn:E; [reflexivity|].
  destruct (trimEnd_head c u C) as [t Ht]. rewrite Ht.
  rewrite trimStart_fixed by exact C.
  rewrite <- Ht. apply trimEnd_idem.
Qed.

Lemma splitLines_singleLine (s : string) :
  singleLine s = true -> splitLines s = [s].
Proof.
  induction s as [|c s IH]; simpl; [reflexivity|].
  intros H. apply andb_true_iff in H as [Hc Hs].
  apply negb_true_iff in Hc. rewrite Hc, (IH Hs). reflexivity.
Qed.

Lemma splitLines_break (a b : string) :
  singleLine a = true ->
  splitLines (a ++ String newline b) = a :: splitLines b.
Proof.
  induction a as [|c a IH]; simpl.
  - intros _. reflexivity.
  - intros H. apply andb_true_iff in H as [Hc Ha].
    apply negb_true_iff in Hc. rewrite Hc, (IH Ha). reflexivity.
Qed.

Lemma singleLine_app (a b : string) :
  singleLine (a ++ b) = singleLine a && singleLine b.
Proof.
  induction a as [|c a IH]; simpl; [reflexivity|].
  now rewrite IH, andb_assoc.
Qed.

End MoreStringFacts.

(** ** Rule engine, continued *)

Section RuleTiers.

Import RuleScoringService.

(** X1. The role score is 20 when the role mentions a decision-maker
    keyword, case ignored, whatever else it mentions; 10 when it mentions
    no decision-maker keyword but an influencer keyword; 0 when it
    mentions neither, as the empty role does. *)
Theorem scoreRole_tiers (r : string) :
  let decisionMaker := mentionsOneOf DECISION_MAKER_ROLES r in
  let influencer := mentionsOneOf INFLUENCER_ROLES r in
  (decisionMaker -> scoreRole r = 20) /\
  (~ decisionMaker -> influencer -> scoreRole r = 10) /\
  (~ decisionMaker -> ~ influencer -> scoreRole r = 0) /\
  (r = "" -> ~ decisionMaker /\ ~ influencer).
Proof.
  cbv zeta.
  pose proof (mentions_upper_iff DECISION_MAKER_ROLES r) as D.
  pose proof (mentions_upper_iff INFLUENCER_ROLES r) as F.
  destruct r as [|c r].
  - assert (D0 : ~ mentionsOneOf DECISION_MAKER_ROLES "").
    { intros H; apply D in H; vm_compute in H; discriminate. }
    assert (F0 : ~ mentionsOneOf INFLUENCER_ROLES "").
    { intros H; apply F in H; vm_compute in H; discriminate. }
    repeat split; intros; try reflexivity; try contradiction; auto.
  - unfold scoreRole. cbn [truthy negb].
    destruct (existsb _ DECISION_MAKER_ROLES);
      destruct (existsb _ INFLUENCER_ROLES);
      repeat split; intros; try reflexivity; try discriminate;
      solve [ exfalso; intuition congruence ].
Qed.

(** A chief executive who is also a manager, a plain manager, and a
    clerk. *)
Lemma scoreRole_tiers_witness :
  scoreRole "Chief Executive and Manager" = 20 /\
  scoreRole "senior account manager" = 10 /\
  scoreRole "Clerk" = 0.
Proof.
  assert (D1 : mentionsOneOf DECISION_MAKER_ROLES
                 "Chief Executive and Manager").
  { apply mentions_upper_iff. vm_compute. reflexivity. }
  assert (D2 : ~ mentionsOneOf DECISION_MAKER_ROLES "senior account manager").
  { intros H; apply mentions_upper_iff in H; vm_compute in H; discriminate. }
  assert (F2 : mentionsOneOf INFLUENCER_ROLES "senior account manager").
  { apply mentions_upper_iff. vm_compute. reflexivity. }
  assert (D3 : ~ mentionsOneOf DECISION_MAKER_ROLES "Clerk").
  { intros H; apply mentions_upper_iff in H; vm_compute in H; discriminate. }
  assert (F3 : ~ mentionsOneOf INFLUENCER_ROLES "Clerk").
  { intros H; apply mentions_upper_iff in H; vm_compute in H; discriminate. }
  split; [|split].
  - apply (proj1 (scoreRole_tiers "Chief Executive and Manager") D1).
  - apply (proj1 (proj2 (scoreRole_tiers "senior account manager")) D2 F2).
  - apply (proj1 (proj2 (proj2 (scoreRole_tiers "Clerk"))) D3 F3).
Defined.

(** X2. The industry score is 20 when the industry mentions an exact ICP
    keyword, case ignored; 10 when it mentions none of them but an
    adjacent keyword; 0 when it mentions neither, as the empty industry
    does. *)
Theorem scoreIndustry_tiers (i : string) :
  let exact := mentionsOneOf ICP_INDUSTRIES.EXACT i in
  let adjacent := mentionsOneOf ICP_INDUSTRIES.ADJACENT i in
  (exact -> scoreIndustry i = 20) /\
  (~ exact -> adjacent -> scoreIndustry i = 10) /\
  (~ exact -> ~ adjacent -> scoreIndustry i = 0) /\
  (i = "" -> ~ exact /\ ~ adjacent).
Proof.
  cbv zeta.
  pose proof (mentions_upper_iff ICP_INDUSTRIES.EXACT i) as D.
  pose proof (mentions_upper_iff ICP_INDUSTRIES.ADJACENT i) as F.
  destruct i as [|c i].
  - assert (D0 : ~ mentionsOneOf ICP_INDUSTRIES.EXACT "").
    { intros H; apply D in H; vm_compute in H; discriminate. }
    assert (F0 : ~ mentionsOneOf ICP_INDUSTRIES.ADJACENT "").
    { intros H; apply F in H; vm_compute in H; discriminate. }
    repeat split; intros; try reflexivity; try contradiction; auto.
  - unfold scoreIndustry. cbn [truthy negb].
    destruct (existsb _ ICP_INDUSTRIES.EXACT);
      destruct (existsb _ ICP_INDUSTRIES.ADJACENT);
      repeat split; intros; try reflexivity; try discriminate;
      solve [ exfalso; intuition congruence ].
Qed.

(** A software consultancy counts as exact, a consultancy as adjacent,
    farming as neither. *)
Lemma scoreIndustry_tiers_witness :
  scoreIndustry "software consulting" = 20 /\
  scoreIndustry "Management CONSULTING" = 10 /\
  scoreIndustry "Agriculture" = 0.
Proof.
  assert (D1 : mentionsOneOf ICP_INDUSTRIES.EXACT "software consulting").
  { apply mentions_upper_iff. vm_compute. reflexivity. }
  assert (D2 : ~ mentionsOneOf ICP_INDUSTRIES.EXACT "Management CONSULTING").
  { intros H; apply mentions_upper_iff in H; vm_compute in H; discriminate. }
  assert (F2 : mentionsOneOf ICP_INDUSTRIES.ADJACENT "Management CONSULTING").
  { apply mentions_upper_iff. vm_compute. reflexivity. }
  assert (D3 : ~ mentionsOneOf ICP_INDUSTRIES.EXACT "Agriculture").
  { intros H; apply mentions_upper_iff in H; vm_compute in H; discriminate. }
  assert (F3 : ~ mentionsOneOf ICP_INDUSTRIES.ADJACENT "Agriculture").
  { intros H; apply mentions_upper_iff in H; vm_compute in H; discriminate. }
  split; [|split].
  - apply (proj1 (scoreIndustry_tiers "software consulting") D1).
  - apply (proj1 (proj2 (scoreIndustry_tiers "Management CONSULTING")) D2 F2).
  - apply (proj1 (proj2 (proj2 (scoreIndustry_tiers "Agriculture"))) D3 F3).
Defined.

(** X3. The rule score is the total of the breakdown, the total is the
    sum of the three sub-scores, the role and industry scores are 0, 10
    or 20 and the completeness score 0 or 10: the rule score is a
    multiple of 10 between 0 and 50, and it is 50 only for a complete
    profile. *)
Theorem calculateRuleScore_breakdown (lead : Lead) :
  let ruleScore := fst (calculateRuleScore lead) in
  let b := snd (calculateRuleScore lead) in
  ruleScore = total_rule_score b /\
  total_rule_score b = role_score b + industry_score b + completeness_score b /\
  In (role_score b) [0; 10; 20] /\
  In (industry_score b) [0; 10; 20] /\
  In (completeness_score b) [0; 10] /\
  In ruleScore [0; 10; 20; 30; 40; 50] /\
  (ruleScore = 50 <->
   role_score b = 20 /\ industry_score b = 20 /\ allSixPresent lead).
Proof.
  cbv zeta. unfold calculateRuleScore. cbn [fst snd role_score industry_score
    completeness_score total_rule_score].
  pose proof (scoreRole_values (role lead)) as R.
  pose proof (scoreIndustry_values (industry lead)) as I.
  pose proof (allFieldsPresent_iff lead) as A.
  unfold scoreCompleteness, SCORING_WEIGHTS.COMPLETENESS.ALL_FIELDS.
  destruct (forallb _ _).
  - assert (allSixPresent lead) by now apply A.
    split; [reflexivity|]. split; [reflexivity|].
    destruct R as [-> | [-> | ->]]; destruct I as [-> | [-> | ->]]; simpl;
      intuition (try lia; try discriminate).
  - assert (~ allSixPresent lead) by (intros P; apply A in P; discriminate).
    split; [reflexivity|]. split; [reflexivity|].
    destruct R as [-> | [-> | ->]]; destruct I as [-> | [-> | ->]]; simpl;
      intuition (try lia; try discriminate).
Qed.

End RuleTiers.

(** ** Classifier, continued *)

Section ParseFacts.

Import AIScoringService.

Lemma parseAIResponse_fold (response : string) :
  let st := fold_left parseLine (splitLines response)
              (Medium, "AI analysis completed") in
  parseAIResponse response
  = {| score := scoreMap (fst st); intent := fst st; reasoning := snd st |}.
Proof.
  cbv zeta. unfold parseAIResponse.
  now destruct (fold_left parseLine _ _).
Qed.

Lemma fold_keeps_intent (lines : list string) :
  Forall (fun line => startsWith line "INTENT:" = false) lines ->
  forall st, fst (fold_left parseLine lines st) = fst st.
Proof.
  induction 1 as [|line lines Hl _ IH]; intros [i r]; cbn [fold_left].
  - reflexivity.
  - rewrite IH. unfold parseLine. cbv beta iota. rewrite Hl.
    now destruct (startsWith line "REASONING:").
Qed.

Lemma fold_keeps_reasoning (lines : list string) :
  Forall (fun line => startsWith line "REASONING:" = false) lines ->
  forall st, snd (fold_left parseLine lines st) = snd st.
Proof.
  induction 1 as [|line lines Hl _ IH]; intros [i r]; cbn [fold_left].
  - reflexivity.
  - rewrite IH. unfold parseLine. cbv beta iota. rewrite Hl.
    destruct (startsWith line "INTENT:"); [|reflexivity].
    destruct (includes _ "High"); [reflexivity|].
    now destruct (includes _ "Low").
Qed.

(** X4. A response without a line that starts with the intent marker is
    read as Medium with 30 points; one without a line that starts with
    the reasoning marker gets the generic reasoning. *)
Theorem parseAIResponse_defaults (response : string) :
  (Forall (fun line => startsWith line "INTENT:" = false)
          (splitLines response) ->
   intent (parseAIResponse response) = Medium /\
   score (parseAIResponse response) = 30) /\
  (Forall (fun line => startsWith line "REASONING:" = false)
          (splitLines response) ->
   reasoning (parseAIResponse response) = "AI analysis completed").
Proof.
  rewrite parseAIResponse_fold. cbv zeta. cbn [intent score reasoning].
  split; intros H.
  - rewrite (fold_keeps_intent _ H). split; reflexivity.
  - now rewrite (fold_keeps_reasoning _ H).
Qed.

(** The empty response and a response in prose. *)
Lemma parseAIResponse_defaults_witness :
  intent (parseAIResponse "") = Medium /\
  reasoning (parseAIResponse "I think this lead is High intent.")
  = "AI analysis completed".
Proof.
  split.
  - apply (proj1 (parseAIResponse_defaults "")).
    vm_compute. repeat constructor.
  - apply (proj2 (parseAIResponse_defaults
                    "I think this lead is High intent.")).
    vm_compute. repeat constructor.
Defined.

Lemma parseLine_intent (label : Intent) :
  parseLine (Medium, "AI analysis completed") ("INTENT: " ++ showIntent label)
  = (label, "AI analysis completed").
Proof. destruct label; vm_compute; reflexivity. Qed.

Lemma parseLine_reasoning (label : Intent) (r text : string) :
  parseLine (label, r) ("REASONING: " ++ text) = (label, trim text).
Proof. reflexivity. Qed.

(** X5. A response in the format the prompt asks for is read back: the
    label, its points, and the reasoning text trimmed, whenever the
    reasoning has no line break. *)
Theorem parseAIResponse_formatted (label : Intent) (text : string) :
  singleLine text = true ->
  parseAIResponse (formatted label text)
  = {| score := scoreMap label; intent := label; reasoning := trim text |}.
Proof.
  intros H. rewrite parseAIResponse_fold. cbv zeta.
  assert (E : splitLines (formatted label text)
              = ["INTENT: " ++ showIntent label; "REASONING: " ++ text]).
  { assert (S : singleLine ("REASONING: " ++ text) = true).
    { rewrite singleLine_app, H. reflexivity. }
    destruct label.
    - change (formatted High text)
        with ("INTENT: High" ++ String newline ("REASONING: " ++ text)).
      rewrite splitLines_break by reflexivity.
      now rewrite (splitLines_singleLine _ S).
    - change (formatted Medium text)
        with ("INTENT: Medium" ++ String newline ("REASONING: " ++ text)).
      rewrite splitLines_break by reflexivity.
      now rewrite (splitLines_singleLine _ S).
    - change (formatted Low text)
        with ("INTENT: Low" ++ String newline ("REASONING: " ++ text)).
      rewrite splitLines_break by reflexivity.
      now rewrite (splitLines_singleLine _ S). }
  rewrite E. cbn [fold_left].
  rewrite parseLine_intent, parseLine_reasoning. reflexivity.
Qed.

End ParseFacts.

Section ClassifierAgreement.

Import AIScoringService.

(** A single-line reasoning with blanks around it. *)
Lemma parseAIResponse_formatted_witness :
  parseAIResponse (formatted Low "  Retail clerk, no buying role.  ")
  = {| score := 10; intent := Low;
       reasoning := "Retail clerk, no buying role." |}.
Proof.
  apply (parseAIResponse_formatted Low "  Retail clerk, no buying role.  ").
  reflexivity.
Defined.

Lemma fallbackScoring_agrees (lead : Lead) (offer : Offer) :
  score (fallbackScoring lead offer)
  = scoreMap (intent (fallbackScoring lead offer)).
Proof.
  unfold fallbackScoring.
  destruct (existsb _ highValueKeywords);
    destruct (includes (toLowerCase (industry lead)) "saas");
    destruct (includes (toLowerCase (industry lead)) "tech");
    reflexivity.
Qed.

Lemma scoreMap_iff (label : Intent) :
  (label = High <-> scoreMap label = 50) /\
  (label = Medium <-> scoreMap label = 30) /\
  (label = Low <-> scoreMap label = 10).
Proof.
  destruct label; simpl; repeat split; intros; try discriminate;
    try reflexivity.
Qed.

Lemma scoreWithAI_agrees (lead : Lead) (offer : Offer) (w w' : World) (r : t) :
  scoreWithAI lead offer w = (Ok r, w') -> score r = scoreMap (intent r).
Proof.
  intros E.
  destruct (scoreWithAI_cases lead offer w) as (r0 & w0 & E0 & H).
  rewrite E in E0. injection E0 as <- <-.
  destruct H as [(_ & -> & _)|[(_ & -> & _)|(_ & c & _ & ->)]].
  - apply fallbackScoring_agrees.
  - reflexivity.
  - rewrite parseAIResponse_fold. reflexivity.
Qed.

(** X6. On each of its three paths the classifier returns points that
    match its label: 50 with High, 30 with Medium, 10 with Low, and only
    so. *)
Theorem scoreWithAI_score_matches_intent
    (lead : Lead) (offer : Offer) (w : World) :
  exists r w',
    scoreWithAI lead offer w = (Ok r, w') /\
    (intent r = High <-> score r = 50) /\
    (intent r = Medium <-> score r = 30) /\
    (intent r = Low <-> score r = 10).
Proof.
  destruct (scoreWithAI_cases lead offer w) as (r & w' & E & _).
  exists r, w'. split; [exact E|].
  rewrite (scoreWithAI_agrees _ _ _ _ _ E). apply scoreMap_iff.
Qed.

End ClassifierAgreement.

Section LabelAndVerdict.

(** When the heuristic says High the industry mentions "saas", which the
    rule engine counts as an exact match. *)
Lemma fallback_high_industry (lead : Lead) (offer : Offer) :
  AIScoringService.intent (AIScoringService.fallbackScoring lead offer) = High ->
  RuleScoringService.scoreIndustry (industry lead) = 20.
Proof.
  unfold AIScoringService.fallbackScoring.
  destruct (existsb _ AIScoringService.highValueKeywords);
    destruct (includes (toLowerCase (industry lead)) "saas") eqn:S;
    destruct (includes (toLowerCase (industry lead)) "tech");
    cbn [AIScoringService.intent]; try discriminate; intros _.
  all: apply (industry_marker_iff lead "saas" eq_refl) in S.
  all: assert (X : mentionsOneOf ICP_INDUSTRIES.EXACT (industry lead))
         by (exists "SaaS"; split;
             [simpl; auto
             |destruct S as (b & p & a & Ei & Ep); exists b, p, a;
              split; [exact Ei|exact Ep]]).
  all: apply mentions_upper_iff in X.
  all: unfold RuleScoringService.scoreIndustry.
  all: destruct (industry lead) as [|c i];
         [vm_compute in X; discriminate|].
  all: cbn [truthy negb]; now rewrite X.
Qed.

(** X7. How the label of the classifier bears on the final intent of
    [scoreLead]: the record keeps the classifier's points and reasoning;
    a lead the classifier calls Low is never High in the end, one it
    calls High is never Low, and when the heuristic is in charge (no
    credential) a lead it calls High is High in the end. *)
Theorem classifier_label_and_final_intent
    (lead : Lead) (offer : Offer) (w : World) :
  exists ai s w',
AIScoringService.scoreWithAI lead offer w = (Ok ai, w') /\
    Deployed.scoreLead lead offer w = (Ok s, w') /\
    reasoning s = AIScoringService.reasoning ai /\
    ai_score s = AIScoringService.score ai /\
    (AIScoringService.intent ai = Low -> intent s <> High) /\
    (AIScoringService.intent ai = High -> intent s <> Low) /\
    (AIScoringService.keyNotConfigured w = true ->
     AIScoringService.intent ai = High -> intent s = High).
Proof.
  destruct (deployed_scoreLead lead offer w) as (ai & w' & E & _ & D).
  cbv zeta in D. eexists ai, _, w'. split; [exact E|]. split; [exact D|].
  cbn [reasoning intent ai_score spread].
  split; [reflexivity|]. split; [reflexivity|].
  pose proof (scoreWithAI_agrees _ _ _ _ _ E) as A.
  pose proof (calculateRuleScore_range lead) as R.
  rewrite determineIntent_thresholds, A.
  pose proof (thresholdIntent_iff
                (fst (RuleScoringService.calculateRuleScore lead)
                 + AIScoringService.scoreMap (AIScoringService.intent ai)))
    as (TH & _ & TL).
  split; [|split].
  - intros L X. apply TH in X. rewrite L in X.
    cbn [AIScoringService.scoreMap] in X.
    unfold SCORING_WEIGHTS.AI.LOW in X. lia.
  - intros L X. apply TL in X. rewrite L in X.
    cbn [AIScoringService.scoreMap] in X.
    unfold SCORING_WEIGHTS.AI.HIGH in X. lia.
  - intros K L. apply TH. rewrite L. cbn [AIScoringService.scoreMap].
    destruct (scoreWithAI_cases lead offer w) as (r0 & w0 & E0 & H).
    rewrite E in E0. injection E0 as <- <-.
    destruct H as [(_ & Ef & _)|[(K' & _)|(K' & _)]]; try congruence.
    rewrite Ef in L. apply fallback_high_industry in L.
    unfold RuleScoringService.calculateRuleScore.
    cbn [fst total_rule_score]. rewrite L.
    pose proof (scoreRole_values (role lead)).
    pose proof (scoreCompleteness_values lead).
    unfold SCORING_WEIGHTS.AI.HIGH. lia.
Qed.

(** Amy without a credential: the heuristic says High and so does the
    final verdict. *)
Lemma classifier_label_and_final_intent_witness :
  exists ai s w',
    AIScoringService.scoreWithAI Scenario.amy Scenario.offer
      Scenario.noCredential = (Ok ai, w') /\
    Deployed.scoreLead Scenario.amy Scenario.offer Scenario.noCredential
    = (Ok s, w') /\
    AIScoringService.intent ai = High /\ intent s = High.
Proof.
  destruct (classifier_label_and_final_intent
              Scenario.amy Scenario.offer Scenario.noCredential)
    as (ai & s & w' & E & D & _ & _ & _ & _ & F).
  exists ai, s, w'. split; [exact E|]. split; [exact D|].
  assert (L : AIScoringService.intent ai = High).
  { vm_compute in E. injection E as <- _. reflexivity. }
  split; [exact L|]. apply F; [reflexivity|exact L].
Defined.

End LabelAndVerdict.

(** ** The batch, continued *)

Lemma thresholdIntent_monotone (a b : Z) :
  a <= b -> intentRank (thresholdIntent a) <= intentRank (thresholdIntent b).
Proof.
  unfold thresholdIntent. intros H.
  destruct (Z_ge_dec a 70); destruct (Z_ge_dec a 40);
    destruct (Z_ge_dec b 70); destruct (Z_ge_dec b 40); simpl; lia.
Qed.

Lemma StronglySorted_under {A : Type} (P : A -> Prop) (R R' : A -> A -> Prop)
    (xs : list A) :
  (forall a b, P a -> P b -> R a b -> R' a b) ->
  Forall P xs -> StronglySorted R xs -> StronglySorted R' xs.
Proof.
  intros H F S. induction S as [|x xs S IH Hx].
  - constructor.
  - inversion F as [|? ? Px Pxs]; subst. constructor; [now apply IH|].
    rewrite Forall_forall in *. intros y Hy. apply H; auto.
Qed.

Section BatchShape.

Import LeadScoringService.

Context {W : Type}.
Variable calculateRuleScore : Lead -> M W (Z * ScoringBreakdown).
Variable scoreWithAI : Lead -> Offer -> M W AIScoringService.t.

(** X8. Whatever the sub-scorers do, the output of [scoreLeads] lists the
    leads by tier: no record comes after a record of a lower intent, so
    the High leads are first, then the Medium ones, then the Low ones. *)
Theorem scoreLeads_groups_by_intent
    (leads : list Lead) (offer : Offer) (w : W) :
  exists out w',
    LeadScoringService.scoreLeads calculateRuleScore scoreWithAI leads offer w
    = (Ok out, w') /\
    StronglySorted
      (fun a b => intentRank (intent b) <= intentRank (intent a)) out.
Proof.
  destruct (scoreLeads_run calculateRuleScore scoreWithAI leads offer w)
    as (pushed & w' & _ & E & F & _).
  exists (sort byScoreDescending pushed), w'. split; [exact E|].
  apply (StronglySorted_under
           (fun s => intent s = thresholdIntent (score s)) scoreNotBelow).
  - intros a b -> -> H. now apply thresholdIntent_monotone.
  - apply (Permutation_Forall (Permutation_sym (sort_perm score pushed))).
    eapply pushed_all; [|exact F].
    intros lead wi _. apply pushedFor_intent.
  - apply (sort_sorted score).
Qed.

(** X9. Whatever the sub-scorers return, every record of the output of
    [scoreLeads], the error placeholders included, has a score that is
    the sum of its rule score and its AI score. *)
Theorem scoreLeads_scores_add_up
    (leads : list Lead) (offer : Offer) (w : W) :
  exists out w',
    LeadScoringService.scoreLeads calculateRuleScore scoreWithAI leads offer w
    = (Ok out, w') /\
    Forall (fun s => score s = rule_score s + ai_score s) out.
Proof.
  destruct (scoreLeads_run calculateRuleScore scoreWithAI leads offer w)
    as (pushed & w' & _ & E & F & _).
  exists (sort byScoreDescending pushed), w'. split; [exact E|].
  apply (Permutation_Forall (Permutation_sym (sort_perm score pushed))).
  eapply pushed_all; [|exact F].
  intros lead wi _.
  destruct (pushedFor_cases calculateRuleScore scoreWithAI lead offer wi)
    as [[w2 Hs]|[_ ->]].
  - apply scoreLead_ok in Hs as (rule & ai & w1 & _ & _ & ->). reflexivity.
  - reflexivity.
Qed.

End BatchShape.

Section DeployedBatch.

Import LeadScoringService.

Lemma deployed_pushedFor (leads : list Lead) (lead : Lead) (offer : Offer)
    (w : World) :
  In lead leads ->
  scoredBy leads offer
    (pushedFor Deployed.calculateRuleScore AIScoringService.scoreWithAI
       lead offer w).
Proof.
  intros Hin.
  destruct (deployed_scoreLead lead offer w) as (ai & w' & _ & I & D).
  cbv zeta in D. unfold Deployed.scoreLead in D.
  unfold pushedFor. rewrite D.
  assert (L : forall a b c d e, leadOf (spread lead a b c d e) = lead)
    by (intros; now destruct lead).
  unfold scoredBy. rewrite L.
  split; [exact Hin|]. split.
  { exists w, w'. exact D. }
  cbn [rule_score ai_score score intent spread].
  split; [reflexivity|]. split; [exact I|]. split; [reflexivity|].
  split; [|apply determineIntent_thresholds].
  pose proof (calculateRuleScore_range lead) as R.
  destruct I as [I|[I|[I|[]]]]; rewrite <- I; lia.
Qed.

Lemma deployed_batch (leads : list Lead) (offer : Offer) (w : World) :
  exists out w',
    Deployed.scoreLeads leads offer w = (Ok out, w') /\
    List.length out = List.length leads /\
    StronglySorted scoreNotBelow out /\
    Forall (scoredBy leads offer) out.
Proof.
  destruct (scoreLeads_run Deployed.calculateRuleScore
              AIScoringService.scoreWithAI leads offer w)
    as (pushed & w' & _ & E & F & _).
  pose proof (sort_perm score pushed) as P.
  exists (sort byScoreDescending pushed), w'. split; [exact E|].
  split; [|split].
  - change (fun a b => score b - score a) with byScoreDescending in P.
    rewrite (Permutation_length P). symmetry. eapply Forall2_length, F.
  - apply (sort_sorted score).
  - apply (Permutation_Forall (Permutation_sym P)).
    eapply pushed_all; [|exact F].
    intros lead wi Hin. now apply deployed_pushedFor.
Qed.

(** X10. With the rule engine and the classifier the constructor wires,
    the [catch] branch of the batch loop is never taken: every record of
    the output is a record [scoreLead] returned for a lead of the batch,
    with the rule score of that lead, an AI score of 10, 30 or 50 and a
    score between 10 and 100. *)
Theorem deployed_batch_has_no_placeholder
    (leads : list Lead) (offer : Offer) (w : World) :
  exists out w',
    Deployed.scoreLeads leads offer w = (Ok out, w') /\
    Forall (fun s =>
              In (leadOf s) leads /\
              (exists w1 w2,
                 Deployed.scoreLead (leadOf s) offer w1 = (Ok s, w2)) /\
              rule_score s
              = fst (RuleScoringService.calculateRuleScore (leadOf s)) /\
              In (ai_score s) [10; 30; 50] /\
              10 <= score s <= 100)
           out.
Proof.
  destruct (deployed_batch leads offer w) as (out & w' & E & _ & _ & F).
  exists out, w'. split; [exact E|].
  eapply Forall_impl; [|exact F].
  intros s (H1 & H2 & H3 & H4 & _ & H6 & _). auto.
Qed.

End DeployedBatch.

Section ClassifierPoints.

(** C5. Every AI score the pipeline produces is 10, 30 or 50. The
    classifier returns such a score on each of its paths: the parse of
    any response of the service, the default of a failed call and the
    fallback heuristic; [scoreLead] copies it in the record it returns;
    and every record of the output of [scoreLeads] carries such a score,
    for every batch, offer and world: with the rule engine and the
    classifier the constructor wires no lead's scoring throws, so the
    batch holds no other AI score. *)
Theorem ai_score_values
    (lead : Lead) (leads : list Lead) (offer : Offer) (w : World) :
  (forall response,
     In (AIScoringService.score (AIScoringService.parseAIResponse response))
        [10; 30; 50]) /\
  In (AIScoringService.score AIScoringService.degradedDefault) [10; 30; 50] /\
  In (AIScoringService.score (AIScoringService.fallbackScoring lead offer))
     [10; 30; 50] /\
  (exists r w',
     AIScoringService.scoreWithAI lead offer w = (Ok r, w') /\
     In (AIScoringService.score r) [10; 30; 50]) /\
  (exists s w',
     Deployed.scoreLead lead offer w = (Ok s, w') /\
     In (ai_score s) [10; 30; 50]) /\
  (exists out w',
     Deployed.scoreLeads leads offer w = (Ok out, w') /\
     List.length out = List.length leads /\
     Forall (fun s => In (ai_score s) [10; 30; 50]) out).
Proof.
  split; [exact parseAIResponse_score|].
  split; [simpl; auto|].
  split; [apply fallbackScoring_score|].
  split; [apply scoreWithAI_score|].
  split.
  - destruct (deployed_scoreLead lead offer w) as (ai & w' & _ & I & E).
    cbv zeta in E. eexists _, w'. split; [exact E|exact I].
  - destruct (deployed_batch leads offer w) as (out & w' & E & L & _ & F).
    exists out, w'. split; [exact E|]. split; [exact L|].
    eapply Forall_impl; [|exact F].
    intros s (_ & _ & _ & I & _). exact I.
Qed.

End ClassifierPoints.

(** ** CSV parser *)

Section ParserFacts.

Import CSVParser.

Lemma hasColumn_iff (headers : list string) (col : string) :
  hasColumn headers col = true <-> In col headers.
Proof.
  unfold hasColumn. rewrite existsb_exists. split.
  - intros (h & Hin & E). apply String.eqb_eq in E. now subst.
  - intros H. exists col. split; [exact H|apply String.eqb_refl].
Qed.

Lemma missing_none (headers cols : list string) :
  (forall col, In col cols -> In col headers) ->
  filter (fun col => negb (hasColumn headers col)) cols = [].
Proof.
  induction cols as [|c cs IH]; intros H; [reflexivity|].
  simpl. assert (E : hasColumn headers c = true).
  { apply hasColumn_iff, H. now left. }
  rewrite E. apply IH. intros col Hc. apply H. now right.
Qed.

Lemma missing_some (headers : list string) :
  (exists col, In col requiredColumns /\ ~ In col headers) ->
  (0 <? List.length
          (filter (fun col => negb (hasColumn headers col)) requiredColumns))%nat
  = true.
Proof.
  intros (col & Hc & Hn).
  assert (I : In col (filter (fun col => negb (hasColumn headers col))
                        requiredColumns)).
  { apply filter_In. split; [exact Hc|].
    apply negb_true_iff. destruct (hasColumn headers col) eqn:E; auto.
    apply hasColumn_iff in E. contradiction. }
  destruct (filter _ requiredColumns); [destruct I|reflexivity].
Qed.

Lemma fold_data (rows : list Row) (ls : list Lead)
    (done : option (list Lead + AppError)) :
  fold_left onEvent (map Data rows)
    {| leads := ls; headerValidated := true; settled := done |}
  = {| leads := (ls ++ filter (fun l => truthy (name l)) (map toLead rows))%list;
       headerValidated := true; settled := done |}.
Proof.
  revert ls; induction rows as [|row rows IH]; intros ls.
  - simpl. now rewrite app_nil_r.
  - cbn [map fold_left]. unfold onEvent at 2.
    cbn [headerValidated negb leads settled].
    cbn [filter]. destruct (truthy (name (toLead row))).
    + rewrite IH, <- app_assoc. reflexivity.
    + apply IH.
Qed.

Lemma settled_stays (events : list Event) (st : State)
    (outcome : list Lead + AppError) :
  settled st = Some outcome ->
  settled (fold_left onEvent events st) = Some outcome.
Proof.
  revert st; induction events as [|ev events IH]; intros st H;
    [exact H|].
  cbn [fold_left]. apply IH.
  destruct ev as [headers|row| |e]; unfold onEvent, settle; rewrite H.
  - now destruct (0 <? _)%nat.
  - destruct (negb (headerValidated st)); [exact H|].
    now destruct (truthy _).
  - exact H.
  - exact H.
Qed.

(** X11. A stream that gives a header with the six required columns, then
    the rows, then its end, resolves to the leads of the rows that have a
    name after trimming, in the order of the rows; the other rows are
    dropped without an error. *)
Theorem parseLeadsCSV_well_formed (headers : list string) (rows : list Row) :
  (forall col, In col requiredColumns -> In col headers) ->
  parseLeadsCSV (Headers headers :: map Data rows ++ [End])%list
  = Some (inl (filter (fun l => truthy (name l)) (map toLead rows))).
Proof.
  intros H. unfold parseLeadsCSV. cbn [fold_left].
  unfold onEvent at 2. rewrite (missing_none headers _ H).
  cbn [List.length Nat.ltb Nat.leb leads settled].
  rewrite fold_left_app, fold_data. reflexivity.
Qed.

(** The file of the scenario: three rows, the second without a name. *)
Lemma parseLeadsCSV_well_formed_witness :
  parseLeadsCSV (LeadController.events Upload.file)
  = Some (inl [Scenario.amy; Scenario.cho]).
Proof.
  refine (eq_trans
            (parseLeadsCSV_well_formed requiredColumns Upload.rows _) _).
  - intros col Hc. exact Hc.
  - vm_compute. reflexivity.
Defined.

(** X12. When the header lacks a required column the promise rejects with
    status 400 and a message that lists the missing columns in the order
    of the required ones, whatever the stream emits afterwards. *)
Theorem parseLeadsCSV_missing_columns
    (headers : list string) (rest : list Event) :
  (exists col, In col requiredColumns /\ ~ In col headers) ->
  parseLeadsCSV (Headers headers :: rest)
  = Some (inr {| message :=
                   "Missing required columns: "
                   ++ join ", "
                        (filter (fun col => negb (hasColumn headers col))
                                requiredColumns);
                 statusCode := 400 |}).
Proof.
  intros H. unfold parseLeadsCSV. cbn [fold_left].
  apply settled_stays. unfold onEvent.
  rewrite (missing_some headers H). reflexivity.
Qed.

(** A header without the role and the bio. *)
Lemma parseLeadsCSV_missing_columns_witness :
  parseLeadsCSV Upload.badEvents
  = Some (inr {| message := "Missing required columns: role, linkedin_bio";
                 statusCode := 400 |}).
Proof.
  refine (eq_trans
            (parseLeadsCSV_missing_columns
               ["name"; "company"; "industry"; "location"] _ _) _).
  - exists "role". split; [simpl; auto|].
    simpl. intros [H|[H|[H|[H|[]]]]]; discriminate.
  - vm_compute. reflexivity.
Defined.

Lemma cell_trimmed (row : Row) (column : string) :
  trim (cell row column) = cell row column.
Proof. unfold cell. apply trim_idem. Qed.

Lemma toLead_admitted (row : Row) :
  truthy (name (toLead row)) = true -> admitted (toLead row).
Proof.
  intros H. unfold admitted. cbn [name role company industry location
    linkedin_bio toLead] in *.
  rewrite !cell_trimmed. repeat split.
  intros E. rewrite E in H. discriminate.
Qed.

Lemma settle_admitted (st : State) (outcome : list Lead + AppError) :
  Forall admitted (leads st) ->
  (forall ls, settled st = Some (inl ls) -> Forall admitted ls) ->
  (forall err, settled st = Some (inr err) -> statusCode err = 400) ->
  (forall ls, outcome = inl ls -> Forall admitted ls) ->
  (forall err, outcome = inr err -> statusCode err = 400) ->
  Forall admitted (leads (settle st outcome)) /\
  (forall ls, settled (settle st outcome) = Some (inl ls) ->
              Forall admitted ls) /\
  (forall err, settled (settle st outcome) = Some (inr err) ->
               statusCode err = 400).
Proof.
  intros L S R OL OR. unfold settle.
  case_eq (settled st); [intros o E|intros E].
  - auto.
  - cbn [leads settled]. split; [exact L|].
    split; intros x X; injection X as X; auto.
Qed.

Lemma onEvent_admitted (st : State) (ev : Event) :
  Forall admitted (leads st) ->
  (forall ls, settled st = Some (inl ls) -> Forall admitted ls) ->
  (forall err, settled st = Some (inr err) -> statusCode err = 400) ->
  Forall admitted (leads (onEvent st ev)) /\
  (forall ls, settled (onEvent st ev) = Some (inl ls) -> Forall admitted ls) /\
  (forall err, settled (onEvent st ev) = Some (inr err) ->
               statusCode err = 400).
Proof.
  intros L S R.
  destruct ev as [headers|row| |e]; unfold onEvent.
  - destruct (0 <? _)%nat; [|auto].
    apply settle_admitted; auto; intros x X; try discriminate.
    injection X as <-. reflexivity.
  - destruct (negb (headerValidated st)); [auto|].
    destruct (truthy (name (toLead row))) eqn:T; [|auto].
    cbn [leads settled]. repeat split; auto.
    apply Forall_app. split; [exact L|].
    constructor; [now apply toLead_admitted|constructor].
  - apply settle_admitted; auto; intros x X; try discriminate.
    injection X as <-. exact L.
  - apply settle_admitted; auto; intros x X; try discriminate.
    injection X as <-. reflexivity.
Qed.

Lemma fold_admitted (events : list Event) :
  forall st,
    Forall admitted (leads st) ->
    (forall ls, settled st = Some (inl ls) -> Forall admitted ls) ->
    (forall err, settled st = Some (inr err) -> statusCode err = 400) ->
    (forall ls, settled (fold_left onEvent events st) = Some (inl ls) ->
                Forall admitted ls) /\
    (forall err, settled (fold_left onEvent events st) = Some (inr err) ->
                 statusCode err = 400).
Proof.
  induction events as [|ev events IH]; intros st L S R; [auto|].
  cbn [fold_left].
  destruct (onEvent_admitted st ev L S R) as (L' & S' & R').
  now apply IH.
Qed.

Lemma parse_admitted (events : list Event) (ls : list Lead) :
  parseLeadsCSV events = Some (inl ls) -> Forall admitted ls.
Proof.
  unfold parseLeadsCSV. intros H.
  eapply (fold_admitted events); [| | |exact H]; cbn [leads settled];
    [constructor| |]; intros x X; discriminate.
Qed.

(** X13. Whatever the stream emits and in whatever order, the leads the
    parser resolves to all have a name and no field with white space at
    either end, and an error it rejects with has status 400. *)
Theorem parseLeadsCSV_admits (events : list Event) :
  (forall ls, parseLeadsCSV events = Some (inl ls) -> Forall admitted ls) /\
  (forall err, parseLeadsCSV events = Some (inr err) -> statusCode err = 400).
Proof.
  unfold parseLeadsCSV.
  apply fold_admitted; cbn [leads settled].
  - constructor.
  - intros ls H. discriminate.
  - intros err H. discriminate.
Qed.

(** The leads of the file of the scenario. *)
Lemma parseLeadsCSV_admits_witness :
  Forall admitted [Scenario.amy; Scenario.cho].
Proof.
  apply (proj1 (parseLeadsCSV_admits (LeadController.events Upload.file))).
  vm_compute. reflexivity.
Defined.

Lemma present_of_trimmed (field : string) :
  trim field = field -> (nonEmptyTrimmed field <-> field <> "").
Proof. intros E. unfold nonEmptyTrimmed. now rewrite E. Qed.

(** X14. For a lead as the parser admits it, the completeness score is 10
    exactly when none of role, company, industry, location and bio is
    empty: the name is never empty, and trimming changes no field. *)
Theorem completeness_of_admitted (lead : Lead) :
  admitted lead ->
  (completeness_score (snd (RuleScoringService.calculateRuleScore lead)) = 10
   <-> role lead <> "" /\ company lead <> "" /\ industry lead <> "" /\
       location lead <> "" /\ linkedin_bio lead <> "").
Proof.
  intros (N & Tn & Tr & Tc & Ti & Tl & Tb).
  unfold RuleScoringService.calculateRuleScore. cbn [snd completeness_score].
  unfold RuleScoringService.scoreCompleteness.
  pose proof (allFieldsPresent_iff lead) as A. unfold allSixPresent in A.
  rewrite (present_of_trimmed _ Tn), (present_of_trimmed _ Tr),
    (present_of_trimmed _ Tc), (present_of_trimmed _ Ti),
    (present_of_trimmed _ Tl), (present_of_trimmed _ Tb) in A.
  unfold SCORING_WEIGHTS.COMPLETENESS.ALL_FIELDS.
  destruct (forallb _ _).
  - split; [intros _; apply A; reflexivity|reflexivity].
  - split; [discriminate|].
    intros H. assert (false = true) by (apply A; tauto). discriminate.
Qed.

(** Amy's row has every field. *)
Lemma completeness_of_admitted_witness :
  completeness_score
    (snd (RuleScoringService.calculateRuleScore Scenario.amy)) = 10.
Proof.
  assert (A : admitted Scenario.amy).
  { unfold admitted. vm_compute. repeat split. discriminate. }
  apply (proj2 (completeness_of_admitted Scenario.amy A)).
  repeat split; discriminate.
Defined.

End ParserFacts.

(** ** Controllers *)

Section StatsFacts.

Lemma countIntent_total (xs : list ScoredLead) :
  countIntent High xs + countIntent Medium xs + countIntent Low xs
  = Z.of_nat (List.length xs).
Proof.
  unfold countIntent. induction xs as [|x xs IH]; [reflexivity|].
  cbn [filter List.length]. destruct (intent x); cbn [List.length]; lia.
Qed.

Lemma sum_scores_shift (xs : list ScoredLead) (start : Z) :
  fold_left (fun sum l => sum + score l) xs start
  = start + fold_left (fun sum l => sum + score l) xs 0.
Proof.
  revert start; induction xs as [|x xs IH]; intros start; simpl.
  - lia.
  - rewrite (IH (start + score x)), (IH (score x)). lia.
Qed.

Lemma sum_scores_bounds (lo hi : Z) (xs : list ScoredLead) :
  Forall (fun l => lo <= score l <= hi) xs ->
  lo * Z.of_nat (List.length xs)
  <= fold_left (fun sum l => sum + score l) xs 0
  <= hi * Z.of_nat (List.length xs).
Proof.
  induction 1 as [|x xs Hx _ IH].
  - simpl. lia.
  - cbn [fold_left List.length]. rewrite sum_scores_shift. lia.
Qed.

(** The rounded mean of scores lies between any bounds of the scores. *)
Lemma averageScore_bounds (lo hi : Z) (xs : list ScoredLead) :
  xs <> [] ->
  Forall (fun l => lo <= score l <= hi) xs ->
  lo <= averageScore (LeadController.statsOf xs) <= hi.
Proof.
  intros N F. unfold LeadController.statsOf, roundedQuotient.
  cbn [averageScore].
  pose proof (sum_scores_bounds lo hi xs F) as B.
  assert (P : 0 < Z.of_nat (List.length xs)).
  { destruct xs; [contradiction|simpl; lia]. }
  set (n := Z.of_nat (List.length xs)) in *.
  set (sum := fold_left _ xs 0) in *.
  split.
  - apply Z.div_le_lower_bound; nia.
  - apply Z.lt_succ_r. apply Z.div_lt_upper_bound; nia.
Qed.

Lemma sorted_split (n : nat) (xs : list ScoredLead) :
  StronglySorted scoreNotBelow xs ->
  forall a b, In a (firstn n xs) -> In b (skipn n xs) -> score b <= score a.
Proof.
  intros S. revert n. induction S as [|x xs S IH Hx]; intros n a b Ha Hb.
  - destruct n; destruct Ha.
  - destruct n as [|n]; [destruct Ha|].
    cbn [firstn skipn] in *. destruct Ha as [<-|Ha].
    + rewrite Forall_forall in Hx. apply Hx.
      rewrite <- (firstn_skipn n xs). apply in_or_app. now right.
    + eapply IH; eauto.
Qed.

End StatsFacts.

Section OfferFacts.

Import OfferController.

Lemma issues_nil_iff (body : Offer) : issues body = [] <-> validOffer body.
Proof.
  unfold issues, validOffer.
  destruct (offer_name body) as [|c n]; destruct (value_props body) as [|v vs];
    destruct (ideal_use_cases body) as [|u us]; simpl;
    split; intros H; try discriminate; try reflexivity;
    try (repeat split; discriminate);
    destruct H as (H1 & H2 & H3); contradiction.
Qed.

(** X15. [createOffer] accepts a body exactly when its name and its two
    lists are non-empty: it then answers 201, replaces the current offer
    and leaves the leads and the results alone, and [getOffer] gives the
    body back; any other body is refused with status 400 and the session
    is unchanged. Before any offer is stored [getOffer] answers 404. *)
Theorem createOffer_then_getOffer (body : Offer) (s : Session) :
  (validOffer body ->
   fst (createOffer body s)
   = Responded 201 (OfferBody "Offer created successfully" body) /\
   currentOffer (snd (createOffer body s)) = Some body /\
   uploadedLeads (snd (createOffer body s)) = uploadedLeads s /\
   scoredLeads (snd (createOffer body s)) = scoredLeads s /\
   fst (getOffer (snd (createOffer body s)))
   = Responded 200 (OfferData body)) /\
  (~ validOffer body ->
   exists text,
     createOffer body s
     = (Raised {| message := text; statusCode := 400 |}, s)) /\
  (currentOffer s = None ->
   getOffer s
   = (Raised {| message := "No offer found. Please create an offer first.";
                statusCode := 404 |}, s)).
Proof.
  pose proof (issues_nil_iff body) as V.
  unfold createOffer, getOffer. split; [|split].
  - intros H. apply V in H. rewrite H. repeat split.
  - intros H. destruct (issues body) as [|i more] eqn:E.
    + elim H. now apply V.
    + eexists. reflexivity.
  - intros ->. reflexivity.
Qed.

(** The offer of the scenarios is accepted; one without value propositions
    is refused. *)
Lemma createOffer_then_getOffer_witness :
  fst (getOffer (snd (createOffer Scenario.offer initialSession)))
  = Responded 200 (OfferData Scenario.offer) /\
  exists text,
    createOffer {| offer_name := "Suite"; value_props := [];
                   ideal_use_cases := ["Retail"] |} initialSession
    = (Raised {| message := text; statusCode := 400 |}, initialSession).
Proof.
  split.
  - apply (proj1 (createOffer_then_getOffer Scenario.offer initialSession)).
    unfold validOffer. simpl. repeat split; discriminate.
  - apply (proj1 (proj2 (createOffer_then_getOffer
                           {| offer_name := "Suite"; value_props := [];
                              ideal_use_cases := ["Retail"] |}
                           initialSession))).
    unfold validOffer. simpl. intros (_ & H & _). now apply H.
Defined.

End OfferFacts.

Section ScoreHandlerFacts.

Import LeadController.

Lemma length_zero_iff {A : Type} (xs : list A) :
  (List.length xs =? 0)%nat = true <-> xs = [].
Proof. destruct xs; simpl; split; intros H; try reflexivity; discriminate. Qed.

(** X16. [POST /score] is refused with status 400 when no leads are
    uploaded, and, when leads are there, when no offer is stored; the
    missing leads are reported first. A refusal changes neither the
    session nor the world: no lead is scored and no call is made. *)
Theorem scoreLeads_handler_preconditions (s : Session) (w : World) :
  (uploadedLeads s = [] ->
   scoreLeads s w
   = (Raised {| message := "No leads uploaded. Please upload leads first.";
                statusCode := 400 |}, s, w)) /\
  (uploadedLeads s <> [] -> currentOffer s = None ->
   scoreLeads s w
   = (Raised {| message := "No offer found. Please create an offer first.";
                statusCode := 400 |}, s, w)).
Proof.
  unfold scoreLeads. split.
  - intros ->. reflexivity.
  - intros N ->. destruct (uploadedLeads s); [contradiction|reflexivity].
Qed.

(** Scoring before anything is uploaded, and after an upload without an
    offer. *)
Lemma scoreLeads_handler_preconditions_witness :
  fst (fst (scoreLeads initialSession Scenario.noCredential))
  = Raised {| message := "No leads uploaded. Please upload leads first.";
              statusCode := 400 |} /\
  fst (fst (scoreLeads
              {| currentOffer := None; uploadedLeads := [Scenario.amy];
                 scoredLeads := [] |} Scenario.noCredential))
  = Raised {| message := "No offer found. Please create an offer first.";
              statusCode := 400 |}.
Proof.
  split.
  - now rewrite (proj1 (scoreLeads_handler_preconditions
                          initialSession Scenario.noCredential) eq_refl).
  - rewrite (proj2 (scoreLeads_handler_preconditions
                      {| currentOffer := None; uploadedLeads := [Scenario.amy];
                         scoredLeads := [] |} Scenario.noCredential)).
    + reflexivity.
    + discriminate.
    + reflexivity.
Defined.

(** X17. With leads and an offer in the session [POST /score] answers 200
    and stores the batch the scoring service returns, which [GET /results]
    then serves. The statistics count every uploaded lead once: the total
    is the number of uploaded leads and the three intent counts add up to
    it; the average score lies between 10 and 100; the top leads are the
    first five records, or all of them when there are fewer, and none of
    the other records scores higher than one of them. *)
Theorem scoreLeads_handler_success (s : Session) (w : World) (offer : Offer) :
  uploadedLeads s <> [] ->
  currentOffer s = Some offer ->
  exists scored w',
    Deployed.scoreLeads (uploadedLeads s) offer w = (Ok scored, w') /\
    let s' := {| currentOffer := currentOffer s;
                 uploadedLeads := uploadedLeads s;
                 scoredLeads := scored |} in
    let stats := statsOf scored in
    scoreLeads s w
    = (Responded 200
         (ScoreBody "Leads scored successfully" stats (slice0 5 scored)),
       s', w') /\
    total stats = Z.of_nat (List.length (uploadedLeads s)) /\
    high stats + medium stats + low stats = total stats /\
    10 <= averageScore stats <= 100 /\
    List.length (slice0 5 scored)
    = Nat.min 5 (List.length (uploadedLeads s)) /\
    (forall a b,
       In a (slice0 5 scored) -> In b (skipn 5 scored) ->
       score b <= score a) /\
    getResults s' = (Responded 200 (ResultsBody scored), s').
Proof.
  intros N O.
  destruct (deployed_batch (uploadedLeads s) offer w)
    as (scored & w' & E & L & S & F).
  exists scored, w'. split; [exact E|]. cbv zeta.
  assert (NS : scored <> []).
  { intros ->. destruct (uploadedLeads s); [contradiction|discriminate]. }
  split; [|split; [|split; [|split; [|split; [|split]]]]].
  - unfold scoreLeads. rewrite O, E.
    destruct (uploadedLeads s); [contradiction|reflexivity].
  - unfold statsOf. cbn [total]. now rewrite L.
  - unfold statsOf. cbn [total high medium low]. apply countIntent_total.
  - apply averageScore_bounds; [exact NS|].
    eapply Forall_impl; [|exact F].
    intros x (_ & _ & _ & _ & _ & B & _). exact B.
  - unfold slice0. now rewrite length_firstn, L.
  - unfold slice0. now apply sorted_split.
  - unfold getResults. cbn [scoredLeads].
    destruct scored; [contradiction|reflexivity].
Qed.

(** Amy and Cho uploaded, the offer of the scenarios stored, no
    credential: two leads are counted and both are top leads. *)
Lemma scoreLeads_handler_success_witness :
  exists scored w',
    Deployed.scoreLeads [Scenario.amy; Scenario.cho] Scenario.offer
      Scenario.noCredential = (Ok scored, w') /\
    total (statsOf scored) = 2 /\
    List.length (slice0 5 scored) = 2%nat.
Proof.
  destruct (scoreLeads_handler_success
              {| currentOffer := Some Scenario.offer;
                 uploadedLeads := [Scenario.amy; Scenario.cho];
                 scoredLeads := [] |}
              Scenario.noCredential Scenario.offer)
    as (scored & w' & E & _ & T & _ & _ & K & _).
  - discriminate.
  - reflexivity.
  - exists scored, w'. split; [exact E|]. split; [exact T|exact K].
Defined.

End ScoreHandlerFacts.

(** ** The session under any sequence of requests *)

Section SessionFacts.

Lemma upload_cases (file : option LeadController.UploadedFile) (s : Session) :
  snd (LeadController.uploadLeads file s) = s
  \/ exists f leads,
       file = Some f /\
       CSVParser.parseLeadsCSV (LeadController.events f) = Some (inl leads) /\
       leads <> [] /\
       (forall err, fst (LeadController.uploadLeads file s) <> Raised err) /\
       snd (LeadController.uploadLeads file s)
       = {| currentOffer := currentOffer s;
            uploadedLeads := leads;
            scoredLeads := scoredLeads s |}.
Proof.
  unfold LeadController.uploadLeads.
  destruct file as [f|]; [|now left].
  destruct (CSVParser.parseLeadsCSV (LeadController.events f))
    as [[leads|err]|] eqn:P; [|now left|now left].
  destruct leads as [|l leads]; [now left|].
  right. exists f, (l :: leads). split; [reflexivity|]. split; [exact P|].
  split; [discriminate|]. cbn [List.length Nat.eqb].
  destruct (LeadController.unlinkError f); split; try reflexivity;
    intros err; discriminate.
Qed.

Lemma score_cases (s : Session) (w : World) :
  (snd (fst (LeadController.scoreLeads s w)) = s /\
   snd (LeadController.scoreLeads s w) = w /\
   exists err, fst (fst (LeadController.scoreLeads s w)) = Raised err)
  \/ exists offer scored w',
       uploadedLeads s <> [] /\ currentOffer s = Some offer /\
       Deployed.scoreLeads (uploadedLeads s) offer w = (Ok scored, w') /\
       List.length scored = List.length (uploadedLeads s) /\
       StronglySorted scoreNotBelow scored /\
       Forall (scoredBy (uploadedLeads s) offer) scored /\
       (forall err, fst (fst (LeadController.scoreLeads s w)) <> Raised err) /\
       snd (fst (LeadController.scoreLeads s w))
       = {| currentOffer := currentOffer s;
            uploadedLeads := uploadedLeads s;
            scoredLeads := scored |} /\
       snd (LeadController.scoreLeads s w) = w'.
Proof.
  unfold LeadController.scoreLeads.
  destruct (uploadedLeads s) as [|l ls] eqn:U.
  - left. cbn. repeat split. eexists; reflexivity.
  - cbn [List.length Nat.eqb].
    destruct (currentOffer s) as [offer|] eqn:O.
    + right.
      destruct (deployed_batch (l :: ls) offer w)
        as (scored & w' & E & L & S & F).
      exists offer, scored, w'. rewrite E. cbn [fst snd].
      repeat split; auto; try discriminate.
    + left. cbn. repeat split. eexists; reflexivity.
Qed.

(** X18. Each request touches its own part of the session: a request
    other than [POST /offer] keeps the current offer, one other than
    [POST /leads/upload] keeps the uploaded leads, one other than
    [POST /score] keeps the scored leads and the world. An upload
    therefore leaves the results of the previous batch in place. A
    request that ends in an [AppError] changes nothing at all. *)
Theorem handle_frame (r : Request) (s : Session) (w : World) :
  let out := fst (fst (handle r s w)) in
  let s' := snd (fst (handle r s w)) in
  let w' := snd (handle r s w) in
  (forall err, out = Raised err -> s' = s /\ w' = w) /\
  ((forall body, r <> PostOffer body) -> currentOffer s' = currentOffer s) /\
  ((forall file, r <> PostLeadsUpload file) ->
   uploadedLeads s' = uploadedLeads s) /\
  (r <> PostScore -> scoredLeads s' = scoredLeads s /\ w' = w).
Proof.
  cbv zeta. destruct r as [body| |file| |]; cbn [handle fst snd].
  - unfold OfferController.createOffer.
    destruct (OfferController.issues body); cbn [fst snd];
      (split; [|split; [|split]]);
      [intros err H; discriminate|intros H; now elim (H body)|reflexivity
      |now split|now split|intros H; now elim (H body)|reflexivity
      |now split].
  - unfold OfferController.getOffer.
    destruct (currentOffer s) eqn:O; cbn [fst snd]; rewrite ?O;
      repeat split; reflexivity.
  - destruct (upload_cases file s) as [E|(f & leads & _ & _ & _ & NR & E)];
      rewrite E; cbn [currentOffer uploadedLeads scoredLeads].
    + split; [now split|]. split; [reflexivity|].
      split; [reflexivity|now split].
    + split; [intros err H; now elim (NR err)|]. split; [reflexivity|].
      split; [intros H; now elim (H file)|now split].
  - destruct (score_cases s w)
      as [(Es & Ew & _)
         |(offer & scored & w' & _ & _ & _ & _ & _ & _ & NR & Es & Ew)];
      rewrite Es, Ew; cbn [currentOffer uploadedLeads scoredLeads].
    + split; [now split|]. split; [reflexivity|].
      split; [reflexivity|intros H; now elim H].
    + split; [intros err H; now elim (NR err)|]. split; [reflexivity|].
      split; [reflexivity|intros H; now elim H].
  - unfold LeadController.getResults.
    destruct (List.length (scoredLeads s) =? 0)%nat; cbn [fst snd];
      repeat split; reflexivity.
Qed.

(** An upload leaves the stored results where they are. *)
Lemma handle_frame_witness :
  scoredLeads
    (snd (fst (handle (PostLeadsUpload (Some Upload.file))
                 {| currentOffer := Some Scenario.offer;
                    uploadedLeads := [Scenario.bob];
                    scoredLeads :=
                      [LeadScoringService.errorPlaceholder Scenario.bob] |}
                 Scenario.noCredential)))
  = [LeadScoringService.errorPlaceholder Scenario.bob].
Proof.
  apply (proj2 (proj2 (proj2
           (handle_frame (PostLeadsUpload (Some Upload.file))
              {| currentOffer := Some Scenario.offer;
                 uploadedLeads := [Scenario.bob];
                 scoredLeads :=
                   [LeadScoringService.errorPlaceholder Scenario.bob] |}
              Scenario.noCredential)))).
  discriminate.
Defined.

End SessionFacts.

Section SessionInvariant.

Lemma handle_session (r : Request) (s : Session) (w : World) :
  snd (fst (handle r s w)) = s
  \/ (exists body,
        validOffer body /\
        snd (fst (handle r s w))
        = {| currentOffer := Some body;
             uploadedLeads := uploadedLeads s;
             scoredLeads := scoredLeads s |})
  \/ (exists leads,
        leads <> [] /\ Forall admitted leads /\
        snd (fst (handle r s w))
        = {| currentOffer := currentOffer s;
             uploadedLeads := leads;
             scoredLeads := scoredLeads s |})
  \/ (exists offer scored,
        uploadedLeads s <> [] /\
        List.length scored = List.length (uploadedLeads s) /\
        StronglySorted scoreNotBelow scored /\
        Forall (scoredBy (uploadedLeads s) offer) scored /\
        snd (fst (handle r s w))
        = {| currentOffer := currentOffer s;
             uploadedLeads := uploadedLeads s;
             scoredLeads := scored |}).
Proof.
  destruct r as [body| |file| |]; cbn [handle fst snd].
  - unfold OfferController.createOffer.
    destruct (OfferController.issues body) eqn:E; [|now left].
    right; left. exists body. split; [now apply issues_nil_iff|reflexivity].
  - left. unfold OfferController.getOffer. now destruct (currentOffer s).
  - destruct (upload_cases file s) as [E|(f & leads & _ & P & N & _ & E)].
    + now left.
    + right; right; left. exists leads. split; [exact N|].
      split; [exact (parse_admitted _ _ P)|exact E].
  - destruct (score_cases s w)
      as [(Es & _)
         |(offer & scored & w' & N & _ & _ & L & S & F & _ & Es & _)].
    + now left.
    + right; right; right. exists offer, scored. auto.
  - left. unfold LeadController.getResults.
    now destruct (List.length (scoredLeads s) =? 0)%nat.
Qed.

Lemma handle_invariant (r : Request) (s : Session) (w : World) :
  sessionInvariant s -> sessionInvariant (snd (fst (handle r s w))).
Proof.
  intros (IO & IU & IS & IF).
  destruct (handle_session r s w)
    as [E|[(body & V & E)|[(leads & N & A & E)
                          |(offer & scored & N & L & S & F & E)]]];
    rewrite E; unfold sessionInvariant;
    cbn [currentOffer uploadedLeads scoredLeads].
  - auto.
  - split; [|auto]. intros o Ho. injection Ho as <-. exact V.
  - auto.
  - split; [exact IO|]. split; [exact IU|]. split; [exact S|].
    eapply Forall_impl; [|exact F].
    intros x (Hin & _ & _ & _ & Hsum & Hb & Hi).
    rewrite Forall_forall in IU. auto.
Qed.

(** X19. Whatever requests the API has served since it started, the
    session is sound: a stored offer has a name and non-empty lists; every
    uploaded lead has a name and trimmed fields; the stored results are
    in non-increasing order of score, and each of them carries such a
    lead, a score that is the sum of its two parts and lies between 10
    and 100, and the intent the thresholds give to that score. *)
Theorem session_is_sound (requests : list Request) (w : World) :
  sessionInvariant (fst (serve requests initialSession w)).
Proof.
  assert (G : forall s w0,
             sessionInvariant s ->
             sessionInvariant (fst (serve requests s w0))).
  { induction requests as [|r rest IH]; intros s w0 I; [exact I|].
    cbn [serve].
    pose proof (handle_invariant r s w0 I) as I'.
    destruct (handle r s w0) as [[out s'] w']. apply IH. exact I'. }
  apply G. unfold sessionInvariant, initialSession.
  cbn [currentOffer uploadedLeads scoredLeads].
  split; [intros o Ho; discriminate|]. split; [|split]; constructor.
Qed.

(** X20. The session never forgets: once an offer is stored there is one
    after every later request, and likewise for the uploaded leads and for
    the scored leads, so [GET /offer] and [GET /results] never fall back
    to 404 and [POST /score] never falls back to "no leads". *)
Theorem session_never_forgets
    (requests : list Request) (s : Session) (w : World) :
  let s' := fst (serve requests s w) in
  (currentOffer s <> None -> currentOffer s' <> None) /\
  (uploadedLeads s <> [] -> uploadedLeads s' <> []) /\
  (scoredLeads s <> [] -> scoredLeads s' <> []).
Proof.
  cbv zeta. revert s w.
  induction requests as [|r rest IH]; intros s w; [tauto|].
  cbn [serve].
  pose proof (handle_session r s w) as H.
  destruct (handle r s w) as [[out s1] w1]. cbn [fst snd] in H.
  specialize (IH s1 w1). destruct IH as (IO & IU & IS).
  destruct H as [->|[(body & _ & ->)|[(leads & N & _ & ->)
                    |(offer & scored & N & L & _ & _ & ->)]]];
    cbn [currentOffer uploadedLeads scoredLeads] in *.
  - tauto.
  - repeat split; auto. intros _. apply IO. discriminate.
  - repeat split; auto.
  - repeat split; auto. intros _. apply IS.
    intros ->. destruct (uploadedLeads s); [contradiction|discriminate].
Qed.

(** An offer, an upload and a scoring pass, then a refused offer, a
    broken upload and a read: everything stored is still there. *)
Lemma session_never_forgets_witness :
  let s := fst (serve [PostOffer Scenario.offer;
                       PostLeadsUpload (Some Upload.file);
                       PostScore]
                  initialSession Scenario.noCredential) in
  let s' := fst (serve [PostOffer {| offer_name := ""; value_props := [];
                                     ideal_use_cases := [] |};
                        PostLeadsUpload None;
                        GetResults]
                   s Scenario.noCredential) in
  currentOffer s' <> None /\ uploadedLeads s' <> [] /\ scoredLeads s' <> [].
Proof.
  cbv zeta.
  match goal with
  | |- currentOffer (fst (serve ?rs ?s ?w)) <> None /\ _ =>
      destruct (session_never_forgets rs s w) as (HO & HU & HS)
  end.
  split; [|split].
  - apply HO. vm_compute. discriminate.
  - apply HU. vm_compute. discriminate.
  - apply HS. vm_compute. discriminate.
Defined.

End SessionInvariant.

Section UploadFacts.

Import CSVParser LeadController.

(** X21. For a file whose stream gives a header with the six columns, the
    rows and its end, and whose deletion succeeds, [POST /leads/upload]
    stores the leads of the rows that have a name, in order, and answers
    200 with their number and the first three of them; when no row has a
    name it refuses with status 400 and stores nothing. The offer and the
    earlier results are as before in both cases. *)
Theorem uploadLeads_well_formed
    (headers : list string) (rows : list Row) (s : Session) :
  (forall col, In col requiredColumns -> In col headers) ->
  let named := filter (fun l => truthy (name l)) (map toLead rows) in
  let file :=
    {| events := (Headers headers :: map Data rows ++ [End])%list;
       unlinkError := None |} in
  (named = [] ->
   uploadLeads (Some file) s
   = (Raised {| message := "CSV file contains no valid leads";
                statusCode := 400 |}, s)) /\
  (named <> [] ->
   uploadLeads (Some file) s
   = (Responded 200
        (UploadBody
           ("Successfully uploaded " ++ showNat (List.length named)
            ++ " leads")
           (Z.of_nat (List.length named)) (slice0 3 named)),
      {| currentOffer := currentOffer s;
         uploadedLeads := named;
         scoredLeads := scoredLeads s |})).
Proof.
  intros H. cbv zeta.
  assert (P : parseLeadsCSV (Headers headers :: map Data rows ++ [End])%list
              = Some (inl (filter (fun l => truthy (name l))
                                  (map toLead rows)))).
  { unfold parseLeadsCSV. cbn [fold_left].
    unfold onEvent at 2. rewrite (missing_none headers _ H).
    cbn [List.length Nat.ltb Nat.leb CSVParser.leads settled].
    rewrite fold_left_app, fold_data. reflexivity. }
  unfold uploadLeads. cbn [events unlinkError]. rewrite P.
  split.
  - intros ->. reflexivity.
  - intros N.
    destruct (filter _ (map toLead rows)) as [|l ls]; [contradiction|].
    reflexivity.
Qed.

(** The file of the scenario: two of its three rows are stored. *)
Lemma uploadLeads_well_formed_witness :
  uploadedLeads (snd (uploadLeads (Some Upload.file) initialSession))
  = [Scenario.amy; Scenario.cho].
Proof.
  unfold Upload.file.
  rewrite (proj2 (uploadLeads_well_formed
                    requiredColumns Upload.rows initialSession
                    (fun col Hc => Hc))).
  - vm_compute. reflexivity.
  - vm_compute. discriminate.
Defined.

End UploadFacts.
